(** * Channel credentials of the gRPC Node native extension

    A shallow embedding of [packages/grpc-native-core/ext/channel_credentials.cc]:
    the [ChannelCredentials] wrapper class, its factory methods [createSsl] and
    [createInsecure], the [compose] method, the constructor [New], and the
    peer-verification bridge handed to the gRPC core library.

    The V8 host and the gRPC core library are external to the file; they enter
    the development as the interfaces [JsHost] and [GrpcCore]. *)

From Stdlib Require Import ZArith NArith.
From stdpp Require Import gmap strings list fin_maps.

Local Open Scope string_scope.
Local Open Scope list_scope.

(** ** Pointers and bytes *)

(** A C pointer is an address; [NULL] is address zero. *)
Definition ptr := N.
Definition NULL : ptr := 0%N.

Definition bytes := list Byte.byte.

(** Identity of a script function (the target of a [v8::Function] handle). *)
Definition fun_id := nat.

(** ** Script values *)

(** What a [v8::Object] is an instance of, as far as the file can tell through
    [IsExternal], [IsFunction], [IsNativeError], [node::Buffer::HasInstance],
    [ChannelCredentials::HasInstance] and [CallCredentials::HasInstance].  An
    instance of one of the two wrapper classes is identified with the address
    of the C++ object held in its internal field. *)
Inductive obj_kind :=
| KPlain
| KBuffer (data : bytes)
| KFunction (f : fun_id)
| KNativeError
| KExternal (value : ptr)
| KChannelCredentials (self : ptr)
| KCallCredentials (self : ptr).

(** An own property is a data property or an accessor with a getter. *)
Inductive property (V : Type) :=
| DataProp (v : V)
| AccessorProp (getter : fun_id).
Arguments DataProp {V} v.
Arguments AccessorProp {V} getter.

#[local] Set Warnings "-register-all".
Inductive Value :=
| Undefined
| Null
| Boolean (b : bool)
| Number (n : Z)
| String (s : string)
| Object (k : obj_kind) (props : gmap string (property Value)).

Definition IsUndefined (v : Value) : bool :=
  match v with Undefined => true | _ => false end.
Definition IsNull (v : Value) : bool :=
  match v with Null => true | _ => false end.
Definition IsObject (v : Value) : bool :=
  match v with Object _ _ => true | _ => false end.
Definition IsFunction (v : Value) : bool :=
  match v with Object (KFunction _) _ => true | _ => false end.
Definition IsExternal (v : Value) : bool :=
  match v with Object (KExternal _) _ => true | _ => false end.
Definition IsNativeError (v : Value) : bool :=
  match v with Object KNativeError _ => true | _ => false end.
Definition Buffer_HasInstance (v : Value) : bool :=
  match v with Object (KBuffer _) _ => true | _ => false end.

(** [Nan::New<External>(p)]. *)
Definition New_External (p : ptr) : Value := Object (KExternal p) ∅.

(** The receiver, the arguments and the construct-call flag of a
    [Nan::FunctionCallbackInfo]. *)
Record FunctionCallbackInfo := {
  This : Value;
  args : list Value;
  IsConstructCall : bool
}.

(** [info[i]]: V8 yields [undefined] past the last argument. *)
Definition info_at (info : FunctionCallbackInfo) (i : nat) : Value :=
  nth i (args info) Undefined.

(** ** Exceptions and results *)

Inductive js_exception :=
| TypeError (msg : string)
| Error (msg : string)
| UserThrown (v : Value).

(** How a script function called from C++ completes. *)
Inductive completion :=
| normal (v : Value)
| abrupt (v : Value).

(** Result of a C++ function of the file: it returns, it returns with a script
    exception scheduled ([Nan::ThrowTypeError], [Nan::ThrowError]), or the
    process dies ([ToLocalChecked] on an empty handle, a dangling pointer, a
    fault inside the library). *)
Inductive result (A : Type) :=
| Done (a : A)
| Thrown (e : js_exception)
| Crashed.
Arguments Done {A} a.
Arguments Thrown {A} e.
Arguments Crashed {A}.

(** ** The gRPC core library *)

(** [grpc_ssl_pem_key_cert_pair]: two [const char *]. *)
Record grpc_ssl_pem_key_cert_pair := {
  private_key : option bytes;
  cert_chain : option bytes
}.

(** The only functions of the file whose addresses are stored in a
    [verify_peer_options]. *)
Inductive verify_peer_callback_fn := fn_verify_peer_callback_wrapper.
Inductive verify_peer_destruct_fn := fn_verify_peer_callback_destruct.

(** [verify_peer_options]; [None] is a NULL function pointer. *)
Record verify_peer_options := {
  verify_peer_callback : option verify_peer_callback_fn;
  verify_peer_callback_userdata : ptr;
  verify_peer_destruct : option verify_peer_destruct_fn
}.

(** A call from the file into the library. *)
Inductive native_call :=
| call_grpc_ssl_credentials_create
    (pem_root_certs : option bytes)
    (pem_key_cert_pair : option grpc_ssl_pem_key_cert_pair)
    (verify_options : verify_peer_options)
| call_grpc_composite_channel_credentials_create (channel_creds call_creds : ptr)
| call_grpc_channel_credentials_release (creds : ptr).

(** The library keeps a state of its own.  A constructor returns a pointer,
    [NULL] on failure.  The release routine may fault ([None]) on a pointer it
    cannot handle. *)
Class GrpcCore := {
  core_state : Type;
  grpc_ssl_credentials_create :
    option bytes -> option grpc_ssl_pem_key_cert_pair -> verify_peer_options ->
    core_state -> ptr * core_state;
  grpc_composite_channel_credentials_create :
    ptr -> ptr -> core_state -> ptr * core_state;
  grpc_channel_credentials_release : ptr -> core_state -> option core_state
}.

(** The script engine: what calling a function with given arguments does.
    A call is taken for its result alone; the state a script function may
    keep from one call to the next is not tracked. *)
Class JsHost := {
  js_call : fun_id -> list Value -> completion
}.

(** ** The state of the process *)

Section ChannelCredentials.
Context `{!GrpcCore} `{!JsHost}.

(** The C++ heap objects the file creates or reads, the library's state, and
    the log of calls made into the library. *)
Record World := {
  (** live [ChannelCredentials] objects: address to [wrapped_credentials] *)
  channel_credentials : gmap ptr ptr;
  (** live [CallCredentials] objects: address to their wrapped credentials *)
  call_credentials : gmap ptr ptr;
  (** live [Nan::Callback] objects: address to the function they hold *)
  nan_callbacks : gmap ptr fun_id;
  core : core_state;
  native_calls : list native_call
}.

Definition set_channel_credentials (m : gmap ptr ptr) (w : World) : World :=
  {| channel_credentials := m; call_credentials := call_credentials w;
     nan_callbacks := nan_callbacks w; core := core w;
     native_calls := native_calls w |}.

Definition set_nan_callbacks (m : gmap ptr fun_id) (w : World) : World :=
  {| channel_credentials := channel_credentials w;
     call_credentials := call_credentials w;
     nan_callbacks := m; core := core w; native_calls := native_calls w |}.

(** The library was called: its new state, and the call logged. *)
Definition entered_core (c : native_call) (s : core_state) (w : World) : World :=
  {| channel_credentials := channel_credentials w;
     call_credentials := call_credentials w;
     nan_callbacks := nan_callbacks w; core := s;
     native_calls := native_calls w ++ [c] |}.

(** Addresses in use on the C++ heap. *)
Definition allocated (w : World) : gset ptr :=
  dom (channel_credentials w) ∪ dom (call_credentials w) ∪ dom (nan_callbacks w).

(** [operator new]: an unused address, never [NULL]. *)
Definition new_address (w : World) : ptr := fresh ({[NULL]} ∪ allocated w).

(** ** A state and error monad for the C++ functions *)

Definition M (A : Type) : Type := World -> result A * World.

Definition ret {A} (a : A) : M A := fun w => (Done a, w).

Definition bind {A B} (m : M A) (k : A -> M B) : M B :=
  fun w =>
    match m w with
    | (Done a, w') => k a w'
    | (Thrown e, w') => (Thrown e, w')
    | (Crashed, w') => (Crashed, w')
    end.

Definition crash {A} : M A := fun w => (Crashed, w).

(** [return Nan::ThrowTypeError(msg)] and [return Nan::ThrowError(msg)]. *)
Definition ThrowTypeError {A} (msg : string) : M A :=
  fun w => (Thrown (TypeError msg), w).
Definition ThrowError {A} (msg : string) : M A :=
  fun w => (Thrown (Error msg), w).

Definition modify (f : World -> World) : M unit := fun w => (Done tt, f w).

(** [MaybeLocal<T>::ToLocalChecked]: fatal on an empty handle. *)
Definition ToLocalChecked {A} (m : option A) : M A :=
  match m with
  | Some a => ret a
  | None => crash
  end.

#[export] Instance M_ret : MRet M := @ret.
#[export] Instance M_bind : MBind M := fun A B k m => bind m k.

(** ** Calls into the library *)

Definition core_ssl_credentials_create (pem_root_certs : option bytes)
    (pem_key_cert_pair : option grpc_ssl_pem_key_cert_pair)
    (verify_options : verify_peer_options) : M ptr :=
  fun w =>
    let '(creds, s) :=
      grpc_ssl_credentials_create pem_root_certs pem_key_cert_pair
        verify_options (core w) in
    (Done creds,
     entered_core
       (call_grpc_ssl_credentials_create pem_root_certs pem_key_cert_pair
          verify_options) s w).

Definition core_composite_channel_credentials_create
    (channel_creds call_creds : ptr) : M ptr :=
  fun w =>
    let '(creds, s) :=
      grpc_composite_channel_credentials_create channel_creds call_creds
        (core w) in
    (Done creds,
     entered_core
       (call_grpc_composite_channel_credentials_create channel_creds call_creds)
       s w).

Definition core_channel_credentials_release (creds : ptr) : M unit :=
  fun w =>
    match grpc_channel_credentials_release creds (core w) with
    | Some s =>
        (Done tt, entered_core (call_grpc_channel_credentials_release creds) s w)
    | None =>
        (Crashed,
         entered_core (call_grpc_channel_credentials_release creds) (core w) w)
    end.

(** ** The wrapper object: constructor, destructor, accessor *)

(** [new ChannelCredentials(credentials)]: the constructor stores its argument
    in [wrapped_credentials]. *)
Definition new_ChannelCredentials (credentials : ptr) : M ptr :=
  fun w =>
    let self := new_address w in
    (Done self,
     set_channel_credentials (<[self := credentials]> (channel_credentials w)) w).

(** [self->wrapped_credentials], also [GetWrappedCredentials]; reading through a
    pointer to a dead object is fatal. *)
Definition GetWrappedCredentials (self : ptr) : M ptr :=
  fun w =>
    match channel_credentials w !! self with
    | Some creds => (Done creds, w)
    | None => (Crashed, w)
    end.

(** [ChannelCredentials::~ChannelCredentials]. *)
Definition ChannelCredentials_dtor (self : ptr) : M unit :=
  creds ← GetWrappedCredentials self;
  core_channel_credentials_release creds.

(** [delete] of a wrapper, as the garbage collector's weak callback of
    [Nan::ObjectWrap] does it: destructor, then the storage is gone. *)
Definition delete_ChannelCredentials (self : ptr) : M unit :=
  ChannelCredentials_dtor self;;
  modify (fun w => set_channel_credentials (delete self (channel_credentials w)) w).

(** ** The peer-verification bridge *)

(** [new Callback(f)]. *)
Definition new_Callback (f : fun_id) : M ptr :=
  fun w =>
    let callback := new_address w in
    (Done callback, set_nan_callbacks (<[callback := f]> (nan_callbacks w)) w).

(** [*callback] for [callback = (Nan::Callback* )userdata]. *)
Definition deref_Callback (userdata : ptr) : M fun_id :=
  fun w =>
    match nan_callbacks w !! userdata with
    | Some f => (Done f, w)
    | None => (Crashed, w)
    end.

(** [Nan::Call]: a script exception leaves the call with the exception
    scheduled. *)
Definition Nan_Call (f : fun_id) (argv : list Value) : M Value :=
  fun w =>
    match js_call f argv with
    | normal v => (Done v, w)
    | abrupt e => (Thrown (UserThrown e), w)
    end.

(** A computation run under a [Nan::TryCatch] that is not rethrown: its
    [MaybeLocal] result together with [HasCaught()]. *)
Definition TryCatch {A} (m : M A) : M (option A * bool) :=
  fun w =>
    match m w with
    | (Done a, w') => (Done (Some a, false), w')
    | (Thrown _, w') => (Done (None, true), w')
    | (Crashed, w') => (Crashed, w')
    end.

Definition verify_peer_callback_wrapper
    (servername cert : option string) (userdata : ptr) : M Z :=
  callback ← deref_Callback userdata;
  let argv0 := match servername with
               | None => Null
               | Some s => String s
               end in
  let argv1 := match cert with
               | None => Null
               | Some s => String s
               end in
  '(result, HasCaught) ← TryCatch (Nan_Call callback [argv0; argv1]);
  if HasCaught : bool then mret 2%Z
  else
    r ← ToLocalChecked result;
    if IsNativeError r then mret 1%Z else mret 0%Z.

(** [delete callback]; deleting a null pointer does nothing, deleting a dead
    object is fatal. *)
Definition verify_peer_callback_destruct (userdata : ptr) : M unit :=
  fun w =>
    if decide (userdata = NULL) then (Done tt, w)
    else
      match nan_callbacks w !! userdata with
      | Some _ =>
          (Done tt, set_nan_callbacks (delete userdata (nan_callbacks w)) w)
      | None => (Crashed, w)
      end.

(** ** Class plumbing *)

Definition ChannelCredentials_HasInstance (val : Value) : bool :=
  match val with Object (KChannelCredentials _) _ => true | _ => false end.

(** Modelled from the spec: [CallCredentials] ([call_credentials.cc]) is the
    call-credentials collaborator, which exposes only "yields a native
    call-credential handle": [HasInstance] recognises its instances and
    [GetWrappedCredentials] reads the handle out of a live one. *)
Definition CallCredentials_HasInstance (val : Value) : bool :=
  match val with Object (KCallCredentials _) _ => true | _ => false end.

Definition CallCredentials_GetWrappedCredentials (other : ptr) : M ptr :=
  fun w =>
    match call_credentials w !! other with
    | Some creds => (Done creds, w)
    | None => (Crashed, w)
    end.

(** [ObjectWrap::Unwrap<T>]: the pointer in the internal field. *)
Definition Unwrap (val : Value) : M ptr :=
  match val with
  | Object (KChannelCredentials self) _ => mret self
  | Object (KCallCredentials self) _ => mret self
  | _ => crash
  end.

(** [credentials->Wrap(info.This())]: the receiver, now an instance whose
    internal field holds [credentials]. *)
Definition Wrap (credentials : ptr) (this : Value) : Value :=
  match this with
  | Object _ props => Object (KChannelCredentials credentials) props
  | _ => Object (KChannelCredentials credentials) ∅
  end.

(** [ext->Value()]. *)
Definition External_Value (val : Value) : M ptr :=
  match val with
  | Object (KExternal p) _ => mret p
  | _ => crash
  end.

Definition New (info : FunctionCallbackInfo) : M Value :=
  if IsConstructCall info then
    if negb (IsExternal (info_at info 0)) then
      ThrowTypeError
        "ChannelCredentials can only be created with the provided functions"
    else
      creds_value ← External_Value (info_at info 0);
      credentials ← new_ChannelCredentials creds_value;
      mret (Wrap credentials (This info))
  else
    ThrowTypeError
      "ChannelCredentials can only be created with the provided functions".

(** [Nan::NewInstance(constructor->GetFunction(), argc, argv)]: [New] runs as
    a construct call on a fresh receiver; the handle is empty when it threw. *)
Definition Nan_NewInstance (argv : list Value) : M (option Value) :=
  fun w =>
    match New {| This := Object KPlain ∅; args := argv;
                 IsConstructCall := true |} w with
    | (Done instance, w') => (Done (Some instance), w')
    | (Thrown _, w') => (Done None, w')
    | (Crashed, w') => (Crashed, w')
    end.

Definition WrapStruct (credentials : ptr) : M Value :=
  let argv := [New_External credentials] in
  maybe_instance ← Nan_NewInstance argv;
  match maybe_instance with
  | None => mret Null
  | Some instance => mret instance
  end.

(** ** createSsl *)

(** Modelled from the spec: [StringOrNull] ([util.h]) holds the "optional
    bytes" of an argument: unassigned until [assign] copies a Buffer's bytes
    into it; [get] is the bytes or NULL. *)
Definition StringOrNull := option bytes.

Definition assign (buffer : Value) : StringOrNull :=
  match buffer with
  | Object (KBuffer data) _ => Some data
  | _ => None
  end.

Definition isAssigned (s : StringOrNull) : bool :=
  match s with Some _ => true | None => false end.

Definition get (s : StringOrNull) : option bytes := s.

(** [Nan::Get(object, key)]: an own data property, the result of an own
    getter (empty when the getter throws), [undefined] when there is none. *)
Definition Nan_Get (object : Value) (key : string) : option Value :=
  match object with
  | Object _ props =>
      match props !! key with
      | Some (DataProp v) => Some v
      | Some (AccessorProp getter) =>
          match js_call getter [] with
          | normal v => Some v
          | abrupt _ => None
          end
      | None => Some Undefined
      end
  | _ => None
  end.

Definition no_verify_options : verify_peer_options :=
  {| verify_peer_callback := None;
     verify_peer_callback_userdata := NULL;
     verify_peer_destruct := None |}.

(** [Local<Function>::Cast]. *)
Definition Function_Cast (val : Value) : M fun_id :=
  match val with
  | Object (KFunction f) _ => mret f
  | _ => crash
  end.

Definition CreateSsl (info : FunctionCallbackInfo) : M Value :=
  root_certs ←
    (if Buffer_HasInstance (info_at info 0) then mret (assign (info_at info 0))
     else if negb (IsNull (info_at info 0) || IsUndefined (info_at info 0)) then
       ThrowTypeError "createSsl's first argument must be a Buffer"
     else mret None);
  private_key ←
    (if Buffer_HasInstance (info_at info 1) then mret (assign (info_at info 1))
     else if negb (IsNull (info_at info 1) || IsUndefined (info_at info 1)) then
       ThrowTypeError "createSSl's second argument must be a Buffer if provided"
     else mret None);
  cert_chain ←
    (if Buffer_HasInstance (info_at info 2) then mret (assign (info_at info 2))
     else if negb (IsNull (info_at info 2) || IsUndefined (info_at info 2)) then
       ThrowTypeError "createSSl's third argument must be a Buffer if provided"
     else mret None);
  let key_cert_pair :=
    {| private_key := get private_key; cert_chain := get cert_chain |} in
  if negb (Bool.eqb (isAssigned private_key) (isAssigned cert_chain)) then
    ThrowError
      "createSsl's second and third arguments must be provided or omitted together"
  else
    verify_options ←
      (if negb (IsUndefined (info_at info 3)) then
         if negb (IsObject (info_at info 3)) then
           ThrowTypeError "createSsl's fourth argument must be an object"
         else
           let object := info_at info 3 in
           checkServerIdentityValue ←
             ToLocalChecked (Nan_Get object "checkServerIdentity");
           if negb (IsUndefined checkServerIdentityValue) then
             if negb (IsFunction checkServerIdentityValue) then
               ThrowTypeError "Value of checkServerIdentity must be a function."
             else
               f ← Function_Cast checkServerIdentityValue;
               callback ← new_Callback f;
               mret {| verify_peer_callback :=
                         Some fn_verify_peer_callback_wrapper;
                       verify_peer_callback_userdata := callback;
                       verify_peer_destruct :=
                         Some fn_verify_peer_callback_destruct |}
           else mret no_verify_options
       else mret no_verify_options);
    creds ←
      core_ssl_credentials_create (get root_certs)
        (if isAssigned private_key then Some key_cert_pair else None)
        verify_options;
    if decide (creds = NULL) then mret Null else WrapStruct creds.

(** ** compose and createInsecure *)

Definition Compose (info : FunctionCallbackInfo) : M Value :=
  if negb (ChannelCredentials_HasInstance (This info)) then
    ThrowTypeError "compose can only be called on ChannelCredentials objects"
  else if negb (CallCredentials_HasInstance (info_at info 0)) then
    ThrowTypeError "compose's first argument must be a CallCredentials object"
  else
    self ← Unwrap (This info);
    self_wrapped_credentials ← GetWrappedCredentials self;
    if decide (self_wrapped_credentials = NULL) then
      ThrowTypeError "Cannot compose insecure credential"
    else
      other ← Unwrap (info_at info 0);
      other_wrapped_credentials ← CallCredentials_GetWrappedCredentials other;
      creds ←
        core_composite_channel_credentials_create self_wrapped_credentials
          other_wrapped_credentials;
      if decide (creds = NULL) then mret Null else WrapStruct creds.

Definition CreateInsecure (info : FunctionCallbackInfo) : M Value :=
  WrapStruct NULL.

(** ** What can happen to the process *)

(** Script code calls the exported functions; the garbage collector deletes a
    wrapper; the library calls back through the function pointers it was
    given. *)
Inductive action :=
| CallNew (info : FunctionCallbackInfo)
| CallCreateSsl (info : FunctionCallbackInfo)
| CallCompose (info : FunctionCallbackInfo)
| CallCreateInsecure (info : FunctionCallbackInfo)
| Collect (self : ptr)
| CoreVerifyPeer (servername cert : option string) (userdata : ptr)
| CoreVerifyPeerDestruct (userdata : ptr).

Definition is_Collect (a : action) : bool :=
  match a with Collect _ => true | _ => false end.

Definition is_CoreVerifyPeerDestruct (a : action) : bool :=
  match a with CoreVerifyPeerDestruct _ => true | _ => false end.

Definition perform (a : action) : M unit :=
  match a with
  | CallNew info => New info;; mret tt
  | CallCreateSsl info => CreateSsl info;; mret tt
  | CallCompose info => Compose info;; mret tt
  | CallCreateInsecure info => CreateInsecure info;; mret tt
  | Collect self => delete_ChannelCredentials self
  | CoreVerifyPeer servername cert userdata =>
      verify_peer_callback_wrapper servername cert userdata;; mret tt
  | CoreVerifyPeerDestruct userdata => verify_peer_callback_destruct userdata
  end.

(** One step: the process survives it, whether or not the script sees an
    exception. *)
Definition exec (a : action) (w : World) : option World :=
  match perform a w with
  | (Crashed, _) => None
  | (_, w') => Some w'
  end.

Fixpoint run (acts : list action) (w : World) : option World :=
  match acts with
  | [] => Some w
  | a :: acts' =>
      match exec a w with
      | Some w' => run acts' w'
      | None => None
      end
  end.

(** The release calls in a log. *)
Definition releases (calls : list native_call) : list ptr :=
  omap (fun c => match c with
                 | call_grpc_channel_credentials_release creds => Some creds
                 | _ => None
                 end) calls.

(** ** Shapes of arguments *)

(** An argument left out: [null] or [undefined]. *)
Definition omitted (v : Value) : bool := IsNull v || IsUndefined v.

(** An optional Buffer argument. *)
Definition optional_Buffer (v : Value) : bool := Buffer_HasInstance v || omitted v.

(** What [CreateSsl] hands to the library for well-shaped arguments: the root
    certificates, and the key/certificate pair when a key was given. *)
Definition passed_root_certs (info : FunctionCallbackInfo) : option bytes :=
  get (assign (info_at info 0)).

Definition passed_key_cert_pair (info : FunctionCallbackInfo)
    : option grpc_ssl_pem_key_cert_pair :=
  if isAssigned (assign (info_at info 1)) then
    Some {| private_key := get (assign (info_at info 1));
            cert_chain := get (assign (info_at info 2)) |}
  else None.

(** The first three arguments pass their checks. *)
Definition well_shaped (info : FunctionCallbackInfo) : bool :=
  optional_Buffer (info_at info 0) && optional_Buffer (info_at info 1)
  && optional_Buffer (info_at info 2)
  && Bool.eqb (Buffer_HasInstance (info_at info 1))
       (Buffer_HasInstance (info_at info 2)).

(** The registration [CreateSsl] puts in a request for the callback at
    [callback]. *)
Definition registration (callback : ptr) : verify_peer_options :=
  {| verify_peer_callback := Some fn_verify_peer_callback_wrapper;
     verify_peer_callback_userdata := callback;
     verify_peer_destruct := Some fn_verify_peer_callback_destruct |}.

(** Every check of [CreateSsl] passes: three optional Buffers, key and chain
    given together or not at all, and a fourth argument that is left out or is
    an object whose [checkServerIdentity] reads as [undefined] or a function. *)
Definition CreateSsl_accepts (info : FunctionCallbackInfo) : bool :=
  well_shaped info
  && (IsUndefined (info_at info 3)
      || IsObject (info_at info 3)
         && match Nan_Get (info_at info 3) "checkServerIdentity" with
            | Some v => IsUndefined v || IsFunction v
            | None => false
            end).

(** Every check of [Compose] passes: the receiver is a live handle wrapping
    [channel_creds], not the null sentinel, and the argument is a live
    call-credentials object wrapping [call_creds]. *)
Definition Compose_accepts (info : FunctionCallbackInfo) (w : World)
    (channel_creds call_creds : ptr) : Prop :=
  (∃ self props,
     This info = Object (KChannelCredentials self) props ∧
     channel_credentials w !! self = Some channel_creds) ∧
  channel_creds ≠ NULL ∧
  (∃ other props,
     info_at info 0 = Object (KCallCredentials other) props ∧
     call_credentials w !! other = Some call_creds).

(** ** Worlds that only grow *)

(** From [w] to [w'] no wrapper and no callback was deleted or changed, the
    call credentials are the same, and nothing was released. *)
Record extends (w w' : World) : Prop := {
  extends_channel_credentials : channel_credentials w ⊆ channel_credentials w';
  extends_nan_callbacks : nan_callbacks w ⊆ nan_callbacks w';
  extends_call_credentials : call_credentials w' = call_credentials w;
  extends_releases : releases (native_calls w') = releases (native_calls w)
}.

(** From [w] to [w'] the callbacks are the same. *)
Definition same_callbacks (w w' : World) : Prop :=
  nan_callbacks w' = nan_callbacks w.

(** A computation that takes every world to a related one, however it ends. *)
Definition preserves (R : World -> World -> Prop) {A} (m : M A) : Prop :=
  ∀ w r w', m w = (r, w') -> R w w'.

(** Two values a Buffer check of [CreateSsl] cannot tell apart: the same
    value, or two ways of leaving the argument out. *)
Definition same_argument (v v' : Value) : Prop :=
  v = v' ∨ omitted v = true ∧ omitted v' = true.

(** The [TypeError] of the first of the first three arguments of [CreateSsl]
    that is neither a Buffer nor left out. *)
Definition Buffer_TypeError (info : FunctionCallbackInfo) : js_exception :=
  TypeError
    (if negb (optional_Buffer (info_at info 0)) then
       "createSsl's first argument must be a Buffer"
     else if negb (optional_Buffer (info_at info 1)) then
       "createSSl's second argument must be a Buffer if provided"
     else "createSSl's third argument must be a Buffer if provided").

End ChannelCredentials.

(** ** A reference library and host

    A concrete [GrpcCore] and [JsHost] on which the definitions compute. *)

Module Reference.

(** Reference-counted credentials: a constructor hands out a fresh pointer
    with one reference, the composite constructor also takes a reference on the
    channel credentials it is given, release drops a reference, ignores [NULL]
    and faults on a pointer it does not know. *)
Definition ref_state := gmap ptr nat.

Definition ref_fresh (s : ref_state) : ptr := fresh ({[NULL]} ∪ dom s).

Definition ref_ssl_credentials_create (root : option bytes)
    (pair : option grpc_ssl_pem_key_cert_pair) (vo : verify_peer_options)
    (s : ref_state) : ptr * ref_state :=
  let p := ref_fresh s in (p, <[p := 1]> s).

Definition ref_composite_channel_credentials_create (c1 c2 : ptr)
    (s : ref_state) : ptr * ref_state :=
  match s !! c1 with
  | Some n => let p := ref_fresh s in (p, <[p := 1]> (<[c1 := S n]> s))
  | None => (NULL, s)
  end.

Definition ref_channel_credentials_release (p : ptr) (s : ref_state)
    : option ref_state :=
  if decide (p = NULL) then Some s
  else
    match s !! p with
    | Some (S (S n)) => Some (<[p := S n]> s)
    | Some _ => Some (delete p s)
    | None => None
    end.

#[export] Instance ref_core : GrpcCore := {|
  core_state := ref_state;
  grpc_ssl_credentials_create := ref_ssl_credentials_create;
  grpc_composite_channel_credentials_create :=
    ref_composite_channel_credentials_create;
  grpc_channel_credentials_release := ref_channel_credentials_release
|}.

(** Function 0 accepts, function 1 returns an error object, every other
    function throws. *)
#[export] Instance ref_host : JsHost := {|
  js_call f argv :=
    match f with
    | 0 => normal (Boolean true)
    | 1 => normal (Object KNativeError ∅)
    | _ => abrupt (String "boom")
    end
|}.

Definition empty_world : World :=
  {| channel_credentials := ∅; call_credentials := ∅; nan_callbacks := ∅;
     core := (∅ : ref_state); native_calls := [] |}.

Definition call (this : Value) (argv : list Value) : FunctionCallbackInfo :=
  {| This := this; args := argv; IsConstructCall := false |}.

(** A world with an insecure handle at 1, a handle at 2 wrapping credentials
    the library knows, a handle at 5 wrapping a pointer it does not know, a
    call-credentials object at 3 and a callback at 4 holding a function that
    throws. *)
Definition sample_world : World :=
  {| channel_credentials :=
       <[5%N := 77%N]> (<[2%N := 40%N]> {[1%N := NULL]});
     call_credentials := {[3%N := 50%N]};
     nan_callbacks := {[4%N := 2]};
     core := (<[50%N := 1]> {[40%N := 1]} : ref_state);
     native_calls := [] |}.

Definition handle (self : ptr) : Value := Object (KChannelCredentials self) ∅.
Definition call_handle (self : ptr) : Value := Object (KCallCredentials self) ∅.
Definition buffer (data : bytes) : Value := Object (KBuffer data) ∅.

(** [{checkServerIdentity: f}]. *)
Definition verify_with (f : fun_id) : Value :=
  Object KPlain {["checkServerIdentity" := DataProp (Object (KFunction f) ∅)]}.

(** A private key without a certificate chain, together with a verification
    function. *)
Definition unpaired_key_with_verify : FunctionCallbackInfo :=
  call Undefined [Undefined; buffer []; Undefined; verify_with 0].

(** An object whose [checkServerIdentity] is an accessor with getter [g]. *)
Definition verify_getter (g : fun_id) : Value :=
  Object KPlain {["checkServerIdentity" := AccessorProp g]}.

(** A library that refuses every request. *)
Definition refusing_core : GrpcCore := {|
  core_state := unit;
  grpc_ssl_credentials_create := fun _ _ _ s => (NULL, s);
  grpc_composite_channel_credentials_create := fun _ _ s => (NULL, s);
  grpc_channel_credentials_release := fun _ s => Some s
|}.



Definition refused_world : @World refusing_core :=
  {| channel_credentials := ∅; call_credentials := ∅; nan_callbacks := ∅;
     core := (tt : @core_state refusing_core); native_calls := [] |}.

End Reference.

(** * Properties *)

Section Properties.
Context `{!GrpcCore} `{!JsHost}.

(** Unfold the monad down to functions on worlds. *)
Ltac unmonad :=
  unfold ToLocalChecked in *;
  unfold mbind, mret, M_bind, M_ret, bind, ret, crash, modify, ThrowTypeError,
    ThrowError in *.

(** ** Allocation *)

Lemma new_address_fresh (w : World) :
  new_address w ≠ NULL ∧ new_address w ∉ allocated w.
Proof.
  unfold new_address.
  pose proof (is_fresh ({[NULL]} ∪ allocated w)) as Hfresh.
  split; set_solver.
Qed.

Lemma new_address_not_channel_credentials (w : World) :
  channel_credentials w !! new_address w = None.
Proof.
  destruct (new_address_fresh w) as [_ Hnot].
  apply not_elem_of_dom. unfold allocated in Hnot. set_solver.
Qed.

Lemma new_address_not_nan_callbacks (w : World) :
  nan_callbacks w !! new_address w = None.
Proof.
  destruct (new_address_fresh w) as [_ Hnot].
  apply not_elem_of_dom. unfold allocated in Hnot. set_solver.
Qed.

(** ** The constructor reached through [WrapStruct] *)

(** [WrapStruct] always gets its instance: [New] is entered as a construct call
    with an External and so takes neither of its throwing branches. *)
Lemma WrapStruct_instance (credentials : ptr) (w : World) :
  WrapStruct credentials w =
    (Done (Object (KChannelCredentials (new_address w)) ∅),
     set_channel_credentials
       (<[new_address w := credentials]> (channel_credentials w)) w).
Proof. reflexivity. Qed.

(** C1: whenever the native layer invokes the bridge on a live registration,
    with a server name and a certificate text that may each be absent, the
    bridge calls the registered function on those two values (an absent one
    passed as null) and returns 0 when the function returns a value that is not
    a native error, 1 when it returns a native error and 2 when it throws; it
    always returns normally, so a thrown exception stops at the bridge. *)
Theorem verify_peer_callback_wrapper_signal
    (w : World) (servername cert : option string) (userdata : ptr)
    (callback : fun_id) :
  nan_callbacks w !! userdata = Some callback ->
  verify_peer_callback_wrapper servername cert userdata w =
    (Done
       match js_call callback
               [from_option String Null servername;
                from_option String Null cert] with
       | normal v => if IsNativeError v then 1%Z else 0%Z
       | abrupt _ => 2%Z
       end, w).
Proof.
  intros Hlive.
  unfold verify_peer_callback_wrapper, deref_Callback, TryCatch, Nan_Call.
  unmonad. rewrite Hlive.
  destruct servername, cert; simpl;
    (destruct (js_call callback _) as [v|e]; [destruct (IsNativeError v)|]);
    reflexivity.
Qed.

(** C10: a direct invocation of the constructor that is not a construct call,
    or whose first argument is not an External, raises the TypeError
    "ChannelCredentials can only be created with the provided functions" and
    creates no handle: the world is unchanged. *)
Theorem New_rejects_direct_invocation (info : FunctionCallbackInfo) (w : World) :
  IsConstructCall info = false ∨ IsExternal (info_at info 0) = false ->
  New info w =
    (Thrown
       (TypeError
          "ChannelCredentials can only be created with the provided functions"),
     w).
Proof.
  intros Hbad. unfold New. unmonad.
  destruct (IsConstructCall info); [|reflexivity].
  destruct Hbad as [Hc|Hext]; [discriminate|].
  rewrite Hext. reflexivity.
Qed.

(** C3: compose on a handle that wraps the null sentinel, with any
    call-credentials object as argument, fails with the TypeError "Cannot
    compose insecure credential"; the world is unchanged, so the composite
    constructor was not called and no handle was allocated. *)
Theorem Compose_insecure_rejected
    (w : World) (self other : ptr) (props props' : gmap string (property Value))
    (rest : list Value) (construct : bool) :
  channel_credentials w !! self = Some NULL ->
  Compose {| This := Object (KChannelCredentials self) props;
             args := Object (KCallCredentials other) props' :: rest;
             IsConstructCall := construct |} w =
    (Thrown (TypeError "Cannot compose insecure credential"), w).
Proof.
  intros Hnull. unfold Compose, GetWrappedCredentials. unmonad. simpl.
  rewrite Hnull. reflexivity.
Qed.

(** ** Growth of the world under the methods and the bridge *)

#[local] Instance extends_preorder : PreOrder extends.
Proof.
  split.
  - intros w. split; reflexivity.
  - intros w1 w2 w3 [Ha Hb Hc Hd] [Ha' Hb' Hc' Hd'].
    split; [by etrans | by etrans | congruence | congruence].
Qed.

#[local] Instance same_callbacks_preorder : PreOrder same_callbacks.
Proof.
  split.
  - intros w. reflexivity.
  - intros w1 w2 w3. unfold same_callbacks. congruence.
Qed.

(** Preservation of a preorder on worlds goes through the monad, and holds
    of everything that only reads the world. *)
Section Preserves.
Context (R : World -> World -> Prop) `{!PreOrder R}.

Lemma preserves_ret {A} (a : A) : preserves R (mret a).
Proof. intros w r w' [= <- <-]. reflexivity. Qed.

Lemma preserves_crash {A} : preserves R (crash : M A).
Proof. intros w r w' [= <- <-]. reflexivity. Qed.

Lemma preserves_ThrowTypeError {A} (msg : string) :
  preserves R (ThrowTypeError msg : M A).
Proof. intros w r w' [= <- <-]. reflexivity. Qed.

Lemma preserves_ThrowError {A} (msg : string) :
  preserves R (ThrowError msg : M A).
Proof. intros w r w' [= <- <-]. reflexivity. Qed.

Lemma preserves_bind {A B} (m : M A) (k : A -> M B) :
  preserves R m -> (∀ a, preserves R (k a)) -> preserves R (mbind k m).
Proof.
  intros Hm Hk w r w'. unmonad.
  destruct (m w) as [[a|e|] w1] eqn:Hmw; intros Heq.
  - etrans; [eapply Hm, Hmw | eapply Hk, Heq].
  - injection Heq as <- <-. eapply Hm, Hmw.
  - injection Heq as <- <-. eapply Hm, Hmw.
Qed.

Lemma preserves_ToLocalChecked {A} (m : option A) :
  preserves R (ToLocalChecked m).
Proof. destruct m; [apply preserves_ret | apply preserves_crash]. Qed.


Lemma preserves_GetWrappedCredentials self :
  preserves R (GetWrappedCredentials self).
Proof.
  intros w r w'. unfold GetWrappedCredentials.
  destruct (_ !! _); intros [= <- <-]; reflexivity.
Qed.

Lemma preserves_CallCredentials_GetWrappedCredentials other :
  preserves R (CallCredentials_GetWrappedCredentials other).
Proof.
  intros w r w'. unfold CallCredentials_GetWrappedCredentials.
  destruct (_ !! _); intros [= <- <-]; reflexivity.
Qed.

Lemma preserves_deref_Callback userdata : preserves R (deref_Callback userdata).
Proof.
  intros w r w'. unfold deref_Callback.
  destruct (_ !! _); intros [= <- <-]; reflexivity.
Qed.

Lemma preserves_Nan_Call f argv : preserves R (Nan_Call f argv).
Proof.
  intros w r w'. unfold Nan_Call.
  destruct (js_call f argv); intros [= <- <-]; reflexivity.
Qed.

Lemma preserves_TryCatch {A} (m : M A) :
  preserves R m -> preserves R (TryCatch m).
Proof.
  intros Hm w r w'. unfold TryCatch.
  destruct (m w) as [[a|e|] w1] eqn:Hmw; intros [= <- <-]; eapply Hm, Hmw.
Qed.

End Preserves.

Lemma releases_app (l1 l2 : list native_call) :
  releases (l1 ++ l2) = releases l1 ++ releases l2.
Proof. apply omap_app. Qed.

Lemma extends_new_ChannelCredentials (credentials : ptr) :
  preserves extends (new_ChannelCredentials credentials).
Proof.
  intros w r w' [= <- <-]. split; simpl; try reflexivity.
  apply insert_subseteq, new_address_not_channel_credentials.
Qed.

Lemma extends_new_Callback (f : fun_id) : preserves extends (new_Callback f).
Proof.
  intros w r w' [= <- <-]. split; simpl; try reflexivity.
  apply insert_subseteq, new_address_not_nan_callbacks.
Qed.

Lemma extends_core_ssl_credentials_create root pair vo :
  preserves extends (core_ssl_credentials_create root pair vo).
Proof.
  intros w r w'. unfold core_ssl_credentials_create.
  destruct (grpc_ssl_credentials_create _ _ _ _) as [creds s].
  intros [= <- <-]. split; simpl; try reflexivity.
  rewrite releases_app. simpl. apply app_nil_r.
Qed.

Lemma extends_core_composite_channel_credentials_create c1 c2 :
  preserves extends (core_composite_channel_credentials_create c1 c2).
Proof.
  intros w r w'. unfold core_composite_channel_credentials_create.
  destruct (grpc_composite_channel_credentials_create _ _ _) as [creds s].
  intros [= <- <-]. split; simpl; try reflexivity.
  rewrite releases_app. simpl. apply app_nil_r.
Qed.

Lemma extends_WrapStruct credentials : preserves extends (WrapStruct credentials).
Proof.
  intros w r w'. rewrite WrapStruct_instance. intros [= <- <-].
  split; simpl; try reflexivity.
  apply insert_subseteq, new_address_not_channel_credentials.
Qed.

Lemma same_callbacks_core_ssl_credentials_create root pair vo :
  preserves same_callbacks (core_ssl_credentials_create root pair vo).
Proof.
  intros w r w'. unfold core_ssl_credentials_create.
  destruct (grpc_ssl_credentials_create _ _ _ _) as [creds s].
  by intros [= <- <-].
Qed.

Lemma same_callbacks_WrapStruct credentials :
  preserves same_callbacks (WrapStruct credentials).
Proof. intros w r w'. rewrite WrapStruct_instance. by intros [= <- <-]. Qed.

(** The side condition of the generic lemmas. *)
Ltac by_preorder := try match goal with |- PreOrder _ => apply _ end.

(** One layer of a computation at a time: binds, branches, primitives. *)
Ltac preserves_step :=
  match goal with
  | |- preserves _ (mbind _ _) =>
      apply preserves_bind; [..|intros ?]; by_preorder
  | |- preserves _ (mret _) => apply preserves_ret; by_preorder
  | |- preserves _ crash => apply preserves_crash; by_preorder
  | |- preserves _ (ThrowTypeError _) =>
      apply preserves_ThrowTypeError; by_preorder
  | |- preserves _ (ThrowError _) => apply preserves_ThrowError; by_preorder
  | |- preserves _ (ToLocalChecked _) =>
      apply preserves_ToLocalChecked; by_preorder
  | |- preserves _ (GetWrappedCredentials _) =>
      apply preserves_GetWrappedCredentials; by_preorder
  | |- preserves _ (CallCredentials_GetWrappedCredentials _) =>
      apply preserves_CallCredentials_GetWrappedCredentials; by_preorder
  | |- preserves _ (deref_Callback _) =>
      apply preserves_deref_Callback; by_preorder
  | |- preserves _ (TryCatch (Nan_Call _ _)) =>
      apply preserves_TryCatch; [..|apply preserves_Nan_Call]; by_preorder
  | |- preserves extends (new_ChannelCredentials _) =>
      apply extends_new_ChannelCredentials
  | |- preserves extends (new_Callback _) => apply extends_new_Callback
  | |- preserves extends (core_ssl_credentials_create _ _ _) =>
      apply extends_core_ssl_credentials_create
  | |- preserves extends (core_composite_channel_credentials_create _ _) =>
      apply extends_core_composite_channel_credentials_create
  | |- preserves extends (WrapStruct _) => apply extends_WrapStruct
  | |- preserves same_callbacks (core_ssl_credentials_create _ _ _) =>
      apply same_callbacks_core_ssl_credentials_create
  | |- preserves same_callbacks (WrapStruct _) => apply same_callbacks_WrapStruct
  | |- preserves _ (if ?b then _ else _) => destruct b
  | |- preserves _ (match ?x with _ => _ end) => destruct x
  end.

Lemma extends_New info : preserves extends (New info).
Proof. unfold New, External_Value. repeat preserves_step. Qed.

Lemma extends_CreateSsl info : preserves extends (CreateSsl info).
Proof. unfold CreateSsl, Function_Cast. repeat preserves_step. Qed.

Lemma extends_Compose info : preserves extends (Compose info).
Proof. unfold Compose, Unwrap. repeat preserves_step. Qed.

Lemma extends_CreateInsecure info : preserves extends (CreateInsecure info).
Proof. apply extends_WrapStruct. Qed.

Lemma extends_verify_peer_callback_wrapper servername cert userdata :
  preserves extends (verify_peer_callback_wrapper servername cert userdata).
Proof. unfold verify_peer_callback_wrapper. repeat preserves_step. Qed.


(** ** Steps *)

Lemma exec_extends (a : action) (w w' : World) :
  is_Collect a = false -> is_CoreVerifyPeerDestruct a = false ->
  exec a w = Some w' -> extends w w'.
Proof.
  intros Hc Hd. unfold exec.
  destruct (perform a w) as [r w1] eqn:Hp. intros Hw'.
  assert (w1 = w') as -> by (destruct r; congruence).
  revert Hp.
  assert (preserves extends (perform a)) as Hg; [|apply Hg].
  destruct a; try discriminate; simpl;
    (apply preserves_bind; [apply _| |intros ?; preserves_step]).
  - apply extends_New.
  - apply extends_CreateSsl.
  - apply extends_Compose.
  - apply extends_CreateInsecure.
  - apply extends_verify_peer_callback_wrapper.
Qed.

(** The library's destruct hook touches the callbacks only. *)
Lemma exec_CoreVerifyPeerDestruct (userdata : ptr) (w w' : World) :
  exec (CoreVerifyPeerDestruct userdata) w = Some w' ->
  channel_credentials w' = channel_credentials w ∧
  call_credentials w' = call_credentials w ∧
  native_calls w' = native_calls w ∧
  core w' = core w.
Proof.
  unfold exec. simpl. unfold verify_peer_callback_destruct.
  destruct (decide (userdata = NULL)) as [->|Hne].
  - by intros [= <-].
  - destruct (nan_callbacks w !! userdata); [|discriminate].
    by intros [= <-].
Qed.

(** The collector's [delete]: possible exactly on a live wrapper whose
    credentials the library's release routine takes; one release call is
    logged and the wrapper is gone. *)
Lemma exec_Collect (self : ptr) (w w' : World) :
  exec (Collect self) w = Some w' <->
  ∃ creds s,
    channel_credentials w !! self = Some creds ∧
    grpc_channel_credentials_release creds (core w) = Some s ∧
    w' = set_channel_credentials (delete self (channel_credentials w))
           (entered_core (call_grpc_channel_credentials_release creds) s w).
Proof.
  unfold exec. simpl.
  unfold delete_ChannelCredentials, ChannelCredentials_dtor,
    GetWrappedCredentials, core_channel_credentials_release.
  unmonad.
  destruct (channel_credentials w !! self) as [creds|] eqn:Hlive.
  - destruct (grpc_channel_credentials_release creds (core w)) as [s|] eqn:Hrel.
    + split.
      * intros [= <-]. by exists creds, s.
      * intros (creds' & s' & [= <-] & Hs & ->).
        rewrite Hrel in Hs. by injection Hs as ->.
    + split; [discriminate|].
      intros (creds' & s' & [= <-] & Hs & _). congruence.
  - split; [discriminate|]. intros (? & ? & ? & _). discriminate.
Qed.

(** A live wrapper stays as it is under every step but its own collection. *)
Lemma exec_preserves_handle (a : action) (w w' : World) (self creds : ptr) :
  a ≠ Collect self ->
  exec a w = Some w' ->
  channel_credentials w !! self = Some creds ->
  channel_credentials w' !! self = Some creds.
Proof.
  intros Hne Hexec Hlive.
  destruct (is_Collect a) eqn:Hc; [|destruct (is_CoreVerifyPeerDestruct a) eqn:Hd].
  - destruct a; try discriminate.
    apply exec_Collect in Hexec as (creds' & s & _ & _ & ->). simpl.
    rewrite lookup_delete_ne; [done|congruence].
  - destruct a; try discriminate.
    apply exec_CoreVerifyPeerDestruct in Hexec as (-> & _). done.
  - apply exec_extends in Hexec as [Hsub _ _ _]; [|done..].
    eapply lookup_weaken; eauto.
Qed.

Lemma run_preserves_handle (acts : list action) (w w' : World)
    (self creds : ptr) :
  Collect self ∉ acts ->
  run acts w = Some w' ->
  channel_credentials w !! self = Some creds ->
  channel_credentials w' !! self = Some creds.
Proof.
  revert w. induction acts as [|a acts IH]; intros w Hnot Hrun Hlive.
  - by injection Hrun as <-.
  - simpl in Hrun. destruct (exec a w) as [w1|] eqn:Hexec; [|discriminate].
    apply (IH w1); [set_solver | done |].
    eapply exec_preserves_handle; [|done..]. set_solver.
Qed.


(** C9: compose raises a TypeError, leaving the world as it was (no look at
    the wrapped pointer, no call into the library), whenever its receiver is
    not a ChannelCredentials instance or its first argument is not a
    CallCredentials instance; and a call of compose that enters the library
    passed both type checks on a receiver that does not wrap the null sentinel,
    and entered it through the composite constructor, once. *)
Theorem Compose_type_checks (info : FunctionCallbackInfo) (w : World) :
  (ChannelCredentials_HasInstance (This info) = false ∨
   CallCredentials_HasInstance (info_at info 0) = false ->
   Compose info w =
     (Thrown
        (TypeError
           (if ChannelCredentials_HasInstance (This info)
            then "compose's first argument must be a CallCredentials object"
            else "compose can only be called on ChannelCredentials objects")),
      w)) ∧
  (∀ r w',
     Compose info w = (r, w') ->
     native_calls w' ≠ native_calls w ->
     ChannelCredentials_HasInstance (This info) = true ∧
     CallCredentials_HasInstance (info_at info 0) = true ∧
     ∃ channel_creds call_creds,
       Compose_accepts info w channel_creds call_creds ∧
       native_calls w' =
         native_calls w ++
           [call_grpc_composite_channel_credentials_create channel_creds
              call_creds]).
Proof.
  split.
  - intros Hbad. unfold Compose. unmonad.
    destruct (ChannelCredentials_HasInstance (This info)); [|reflexivity].
    destruct Hbad as [?|Harg]; [discriminate|].
    simpl. rewrite Harg. reflexivity.
  - intros r w'. unfold Compose, Compose_accepts. unmonad.
    destruct (ChannelCredentials_HasInstance (This info)) eqn:Hthis; simpl;
      [|intros [= <- <-]; congruence].
    destruct (CallCredentials_HasInstance (info_at info 0)) eqn:Harg; simpl;
      [|intros [= <- <-]; congruence].
    destruct (This info) as [| | | | |[| | | | |self|] props];
      try discriminate Hthis.
    destruct (info_at info 0) as [| | | | |[| | | | | |other] props'];
      try discriminate Harg.
    simpl. unfold GetWrappedCredentials, CallCredentials_GetWrappedCredentials.
    destruct (channel_credentials w !! self) as [channel_creds|] eqn:Hself;
      [|intros [= <- <-]; congruence].
    destruct (decide (channel_creds = NULL)) as [->|Hsecure];
      [intros [= <- <-]; congruence|].
    destruct (call_credentials w !! other) as [call_creds|] eqn:Hother;
      [|intros [= <- <-]; congruence].
    unfold core_composite_channel_credentials_create.
    destruct (grpc_composite_channel_credentials_create _ _ _) as [creds s].
    intros Hc _. do 2 (split; [reflexivity|]).
    exists channel_creds, call_creds. split; [naive_solver|].
    destruct (decide (creds = NULL)).
    + by injection Hc as <- <-.
    + rewrite WrapStruct_instance in Hc. by injection Hc as <- <-.
Qed.

(** C2: when exactly one of the second and third arguments of createSsl is
    given and the other is null or undefined, createSsl fails and the world is
    unchanged: the library was not called, no wrapper and no callback was
    allocated.  The failure is the TypeError of the first argument that is
    neither a Buffer nor left out, if there is one; with three arguments of the
    right type it is the Error "createSsl's second and third arguments must be
    provided or omitted together". *)
Theorem CreateSsl_key_and_chain_together (info : FunctionCallbackInfo) (w : World) :
  omitted (info_at info 1) ≠ omitted (info_at info 2) ->
  CreateSsl info w =
    (Thrown
       (if negb (optional_Buffer (info_at info 0)) then
          TypeError "createSsl's first argument must be a Buffer"
        else if negb (optional_Buffer (info_at info 1)) then
          TypeError "createSSl's second argument must be a Buffer if provided"
        else if negb (optional_Buffer (info_at info 2)) then
          TypeError "createSSl's third argument must be a Buffer if provided"
        else
          Error
            "createSsl's second and third arguments must be provided or omitted together"),
     w).
Proof.
  intros Hone. unfold CreateSsl, optional_Buffer, omitted in *. unmonad.
  destruct (info_at info 1) as [| | | | |[] ?];
    destruct (info_at info 2) as [| | | | |[] ?];
    simpl in Hone; try (exfalso; apply Hone; reflexivity);
    destruct (info_at info 0) as [| | | | |[] ?]; reflexivity.
Qed.


(** ** createSsl past its checks *)

(** With well-shaped arguments and no verification function, [CreateSsl] goes
    to the library with an empty [verify_peer_options]. *)
Lemma CreateSsl_without_callback (info : FunctionCallbackInfo) (w : World) :
  well_shaped info = true ->
  IsUndefined (info_at info 3) = true ∨
  IsObject (info_at info 3) = true ∧
  Nan_Get (info_at info 3) "checkServerIdentity" = Some Undefined ->
  CreateSsl info w =
    (creds ← core_ssl_credentials_create (passed_root_certs info)
               (passed_key_cert_pair info) no_verify_options;
     if decide (creds = NULL) then mret Null else WrapStruct creds) w.
Proof.
  unfold well_shaped, passed_root_certs, passed_key_cert_pair, CreateSsl,
    optional_Buffer, omitted.
  intros Hshape H3.
  destruct (info_at info 0) as [| | | | |[] ?]; try discriminate Hshape;
    destruct (info_at info 1) as [| | | | |[] ?]; try discriminate Hshape;
    destruct (info_at info 2) as [| | | | |[] ?]; try discriminate Hshape;
    clear Hshape; unmonad; simpl;
    (destruct H3 as [H3|[H3 Hget]];
     [destruct (info_at info 3); try discriminate H3; reflexivity
     |rewrite H3, Hget; destruct (IsUndefined (info_at info 3)); reflexivity]).
Qed.

(** With well-shaped arguments and a verification function, [CreateSsl]
    allocates a callback for it and goes to the library with the registration
    of that callback. *)
Lemma CreateSsl_with_callback (info : FunctionCallbackInfo) (w : World)
    (f : fun_id) (props : gmap string (property Value)) :
  well_shaped info = true ->
  IsObject (info_at info 3) = true ->
  Nan_Get (info_at info 3) "checkServerIdentity" =
    Some (Object (KFunction f) props) ->
  CreateSsl info w =
    (creds ← core_ssl_credentials_create (passed_root_certs info)
               (passed_key_cert_pair info) (registration (new_address w));
     if decide (creds = NULL) then mret Null else WrapStruct creds)
      (set_nan_callbacks (<[new_address w := f]> (nan_callbacks w)) w).
Proof.
  unfold well_shaped, passed_root_certs, passed_key_cert_pair, CreateSsl,
    optional_Buffer, omitted.
  intros Hshape H3 Hget.
  assert (IsUndefined (info_at info 3) = false) as Hdef
    by (destruct (info_at info 3); done).
  destruct (info_at info 0) as [| | | | |[] ?]; try discriminate Hshape;
    destruct (info_at info 1) as [| | | | |[] ?]; try discriminate Hshape;
    destruct (info_at info 2) as [| | | | |[] ?]; try discriminate Hshape;
    clear Hshape; unmonad; simpl;
    rewrite Hdef, H3, Hget; reflexivity.
Qed.


(** The answer of a constructor of the library, handed back to the script. *)
Lemma returned_credentials (creds : ptr) (w w1 : World) :
  channel_credentials w1 = channel_credentials w ->
  (creds = NULL ->
   (if decide (creds = NULL) then mret Null else WrapStruct creds) w1 =
     (Done Null, w1)) ∧
  (creds ≠ NULL ->
   ∃ self,
     self ≠ NULL ∧ (self ∉ allocated w1) ∧
     channel_credentials w !! self = None ∧
     (if decide (creds = NULL) then mret Null else WrapStruct creds) w1 =
       (Done (Object (KChannelCredentials self) ∅),
        set_channel_credentials (<[self := creds]> (channel_credentials w)) w1)).
Proof.
  intros Hsame. split; intros Hcreds.
  - by destruct (decide (creds = NULL)).
  - destruct (decide (creds = NULL)); [done|].
    exists (new_address w1). rewrite WrapStruct_instance, Hsame.
    destruct (new_address_fresh w1) as [Hnn Hfresh].
    split_and!; try done.
    rewrite <- Hsame. apply new_address_not_channel_credentials.
Qed.

(** C5: a call of createSsl or of compose that passes every check goes to the
    library's constructor; when the constructor returns NULL the call returns
    null, without an exception, and no wrapper is created; otherwise the call
    returns a new ChannelCredentials instance, at an address that held no
    wrapper before, wrapping the pointer the constructor returned. *)
Theorem construction_failure_returns_null :
  (∀ info w,
     CreateSsl_accepts info = true ->
     ∃ vo w0,
       channel_credentials w0 = channel_credentials w ∧
       core w0 = core w ∧
       native_calls w0 = native_calls w ∧
       ∀ creds s,
         grpc_ssl_credentials_create (passed_root_certs info)
           (passed_key_cert_pair info) vo (core w) = (creds, s) ->
         let w1 :=
           entered_core
             (call_grpc_ssl_credentials_create (passed_root_certs info)
                (passed_key_cert_pair info) vo) s w0 in
         (creds = NULL -> CreateSsl info w = (Done Null, w1)) ∧
         (creds ≠ NULL ->
          ∃ self,
            channel_credentials w !! self = None ∧
            CreateSsl info w =
              (Done (Object (KChannelCredentials self) ∅),
               set_channel_credentials
                 (<[self := creds]> (channel_credentials w)) w1))) ∧
  (∀ info w channel_creds call_creds,
     Compose_accepts info w channel_creds call_creds ->
     ∀ creds s,
       grpc_composite_channel_credentials_create channel_creds call_creds
         (core w) = (creds, s) ->
       let w1 :=
         entered_core
           (call_grpc_composite_channel_credentials_create channel_creds
              call_creds) s w in
       (creds = NULL -> Compose info w = (Done Null, w1)) ∧
       (creds ≠ NULL ->
        ∃ self,
          channel_credentials w !! self = None ∧
          Compose info w =
            (Done (Object (KChannelCredentials self) ∅),
             set_channel_credentials
               (<[self := creds]> (channel_credentials w)) w1))).
Proof.
  split.
  - intros info w Hacc. unfold CreateSsl_accepts in Hacc.
    apply andb_prop in Hacc as [Hshape H3].
    assert
      ((IsUndefined (info_at info 3) = true ∨
        IsObject (info_at info 3) = true ∧
        Nan_Get (info_at info 3) "checkServerIdentity" = Some Undefined) ∨
       ∃ f props,
         IsObject (info_at info 3) = true ∧
         Nan_Get (info_at info 3) "checkServerIdentity" =
           Some (Object (KFunction f) props)) as [Hno|(f & props & Hobj & Hget)].
    { apply orb_prop in H3 as [H3|H3]; [by left; left|].
      apply andb_prop in H3 as [Hobj Hget].
      destruct (Nan_Get _ _) as [[| | | | |[] props]|]; try discriminate Hget.
      - left. by right.
      - right. by eexists _, _. }
    + exists no_verify_options, w. split_and!; try done.
      intros creds s Hcore w1.
      rewrite (CreateSsl_without_callback _ _ Hshape Hno).
      unfold core_ssl_credentials_create. unmonad. rewrite Hcore.
      destruct (returned_credentials creds w w1 eq_refl) as [Hnull Hnew].
      split; [done|]. intros Hne.
      destruct (Hnew Hne) as (self & _ & _ & Hfree & Heq). by exists self.
    + exists (registration (new_address w)),
        (set_nan_callbacks (<[new_address w := f]> (nan_callbacks w)) w).
      split_and!; try done.
      intros creds s Hcore w1.
      rewrite (CreateSsl_with_callback _ _ _ _ Hshape Hobj Hget).
      unfold core_ssl_credentials_create. unmonad. simpl. rewrite Hcore.
      destruct (returned_credentials creds w w1 eq_refl) as [Hnull Hnew].
      split; [done|]. intros Hne.
      destruct (Hnew Hne) as (self & _ & _ & Hfree & Heq). by exists self.
  - intros info w channel_creds call_creds
      ((self & props & Hthis & Hself) & Hsecure & (other & props' & Harg & Hother))
      creds s Hcore w1.
    unfold Compose. rewrite Hthis, Harg. unmonad. simpl.
    unfold GetWrappedCredentials, CallCredentials_GetWrappedCredentials.
    rewrite Hself. destruct (decide (channel_creds = NULL)); [done|].
    rewrite Hother. unfold core_composite_channel_credentials_create.
    rewrite Hcore.
    destruct (returned_credentials creds w w1 eq_refl) as [Hnull Hnew].
    split; [done|]. intros Hne.
    destruct (Hnew Hne) as (new & _ & _ & Hfree & Heq). by exists new.
Qed.


(** A live callback survives every step but the library's destruct hook. *)
Lemma exec_keeps_callbacks (a : action) (w w' : World) :
  is_CoreVerifyPeerDestruct a = false ->
  exec a w = Some w' ->
  nan_callbacks w ⊆ nan_callbacks w'.
Proof.
  intros Hd Hexec. destruct (is_Collect a) eqn:Hc.
  - destruct a; try discriminate.
    by apply exec_Collect in Hexec as (creds & s & _ & _ & ->).
  - by apply exec_extends in Hexec as [_ Hsub _ _].
Qed.


(** C7: createInsecure always returns a new ChannelCredentials instance, and
    the wrapper behind it holds the null sentinel; from then on, after any
    steps of the process that do not collect that wrapper, every call of
    compose on it throws a TypeError and leaves the world as it was, and with
    a CallCredentials argument the error is "Cannot compose insecure
    credential". *)
Theorem CreateInsecure_never_fails (info : FunctionCallbackInfo) (w : World) :
  ∃ self w1,
    CreateInsecure info w = (Done (Object (KChannelCredentials self) ∅), w1) ∧
    channel_credentials w !! self = None ∧
    channel_credentials w1 !! self = Some NULL ∧
    ∀ acts w2,
      run acts w1 = Some w2 ->
      Collect self ∉ acts ->
      ∀ props argv construct,
        ∃ msg,
          Compose {| This := Object (KChannelCredentials self) props;
                     args := argv; IsConstructCall := construct |} w2 =
            (Thrown (TypeError msg), w2) ∧
          (CallCredentials_HasInstance (nth 0 argv Undefined) = true ->
           msg = "Cannot compose insecure credential").
Proof.
  unfold CreateInsecure. rewrite WrapStruct_instance.
  eexists _, _. split; [reflexivity|].
  split; [apply new_address_not_channel_credentials|].
  split; [simpl; apply lookup_insert_eq|].
  intros acts w2 Hrun Hnot props argv construct.
  assert (channel_credentials w2 !! new_address w = Some NULL) as Hnull.
  { eapply run_preserves_handle; [done..|]. simpl. apply lookup_insert_eq. }
  unfold Compose, info_at. simpl. unmonad.
  destruct (CallCredentials_HasInstance (nth 0 argv Undefined)) eqn:Harg; simpl.
  - unfold GetWrappedCredentials. rewrite Hnull. simpl. by eexists.
  - eexists. split; [reflexivity|done].
Qed.


(** C8: a compose that succeeds (both checks pass, the receiver is not
    insecure, the library returns a credential) returns a ChannelCredentials
    instance at an address that held no object before, so it is neither of the
    two inputs.  The world after it is the world before it with that one
    wrapper added and that one call made: the only call into the library is
    the composite constructor's, nothing is released, the library's state is
    the one the constructor left, the receiver still wraps the same
    credentials and the call credentials are untouched.  The same call of
    compose passes every check again afterwards, and still does after the
    returned handle is collected, whose collection releases the composite
    credentials and nothing else; collecting the receiver leaves the returned
    handle as it is. *)
Theorem Compose_leaves_inputs
    (info : FunctionCallbackInfo) (w : World)
    (channel_creds call_creds creds : ptr) (s : core_state) :
  Compose_accepts info w channel_creds call_creds ->
  grpc_composite_channel_credentials_create channel_creds call_creds (core w) =
    (creds, s) ->
  creds ≠ NULL ->
  ∃ new w',
    Compose info w = (Done (Object (KChannelCredentials new) ∅), w') ∧
    (new ∉ allocated w) ∧
    Object (KChannelCredentials new) ∅ ≠ This info ∧
    Object (KChannelCredentials new) ∅ ≠ info_at info 0 ∧
    channel_credentials w' = <[new := creds]> (channel_credentials w) ∧
    call_credentials w' = call_credentials w ∧
    nan_callbacks w' = nan_callbacks w ∧
    native_calls w' =
      native_calls w ++
        [call_grpc_composite_channel_credentials_create channel_creds
           call_creds] ∧
    core w' = s ∧
    Compose_accepts info w' channel_creds call_creds ∧
    (∀ w2,
       exec (Collect new) w' = Some w2 ->
       Compose_accepts info w2 channel_creds call_creds ∧
       native_calls w2 =
         native_calls w' ++ [call_grpc_channel_credentials_release creds]) ∧
    (∀ self props w2,
       This info = Object (KChannelCredentials self) props ->
       exec (Collect self) w' = Some w2 ->
       channel_credentials w2 !! new = Some creds ∧
       native_calls w2 =
         native_calls w' ++
           [call_grpc_channel_credentials_release channel_creds]).
Proof.
  intros Hacc Hcore Hne.
  pose proof Hacc as
    ((self & props & Hthis & Hself) & Hsecure & (other & props' & Harg & Hother)).
  unfold Compose. rewrite Hthis, Harg. unmonad. simpl.
  unfold GetWrappedCredentials, CallCredentials_GetWrappedCredentials.
  rewrite Hself. destruct (decide (channel_creds = NULL)); [done|].
  rewrite Hother. unfold core_composite_channel_credentials_create.
  rewrite Hcore. destruct (decide (creds = NULL)); [done|].
  rewrite WrapStruct_instance.
  set (w1 := entered_core _ s w).
  assert (new_address w1 ∉ allocated w) as Hfresh
    by apply (new_address_fresh w1).
  assert (new_address w1 ≠ self) as Hnself.
  { intros Heq. apply Hfresh. rewrite Heq. unfold allocated.
    apply elem_of_union_l, elem_of_union_l, elem_of_dom. by eexists. }
  eexists _, _. split; [reflexivity|]. split_and!; try done.
  - congruence.
  - unfold Compose_accepts. split_and!; [|done|by exists other, props'].
    exists self, props. split; [done|]. simpl.
    by rewrite lookup_insert_ne.
  - intros w2 Hexec.
    apply exec_Collect in Hexec as (creds' & s' & Hlive & _ & ->).
    simpl in Hlive. rewrite lookup_insert_eq in Hlive. injection Hlive as <-.
    split; [|done].
    unfold Compose_accepts. split_and!; [|done|by exists other, props'].
    exists self, props. split; [done|]. simpl.
    rewrite lookup_delete_ne by done. by rewrite lookup_insert_ne.
  - intros self' props'' w2 Hthis' Hexec.
    assert (self' = self) as -> by congruence.
    apply exec_Collect in Hexec as (creds' & s' & Hlive & _ & ->).
    simpl in Hlive. rewrite lookup_insert_ne in Hlive by done.
    assert (creds' = channel_creds) as -> by congruence.
    split; [|done]. simpl.
    rewrite lookup_delete_ne by done. apply lookup_insert_eq.
Qed.



(** * Further properties of the file *)

(** ** The wrapper class *)

(** [WrapStruct], [New], [HasInstance], [Unwrap] and [GetWrappedCredentials]
    fit together: what [WrapStruct] returns for a pointer is an instance of the
    class, reading its wrapped credentials gives the pointer back, the library
    is not entered, and every wrapper that was live still is, unchanged. *)
Theorem WrapStruct_round_trip (credentials : ptr) (w : World) :
  ∃ instance w',
    WrapStruct credentials w = (Done instance, w') ∧
    ChannelCredentials_HasInstance instance = true ∧
    (self ← Unwrap instance; GetWrappedCredentials self) w' =
      (Done credentials, w') ∧
    channel_credentials w ⊆ channel_credentials w' ∧
    native_calls w' = native_calls w ∧
    core w' = core w.
Proof.
  rewrite WrapStruct_instance. eexists _, _. split; [reflexivity|].
  split; [reflexivity|]. split.
  - unfold GetWrappedCredentials. unmonad. simpl.
    by rewrite lookup_insert_eq.
  - split_and!; try done. simpl.
    apply insert_subseteq, new_address_not_channel_credentials.
Qed.

(** ** createSsl: its checks *)

(** Past the Buffer checks and the key/chain check [CreateSsl] is its second
    half: the verify options, the library call, the wrapping. *)
Lemma CreateSsl_past_Buffers (info : FunctionCallbackInfo) (w : World) :
  well_shaped info = true ->
  CreateSsl info w =
    (verify_options ←
       (if negb (IsUndefined (info_at info 3)) then
          if negb (IsObject (info_at info 3)) then
            ThrowTypeError "createSsl's fourth argument must be an object"
          else
            checkServerIdentityValue ←
              ToLocalChecked (Nan_Get (info_at info 3) "checkServerIdentity");
            if negb (IsUndefined checkServerIdentityValue) then
              if negb (IsFunction checkServerIdentityValue) then
                ThrowTypeError "Value of checkServerIdentity must be a function."
              else
                f ← Function_Cast checkServerIdentityValue;
                callback ← new_Callback f;
                mret (registration callback)
            else mret no_verify_options
        else mret no_verify_options);
     creds ← core_ssl_credentials_create (passed_root_certs info)
               (passed_key_cert_pair info) verify_options;
     if decide (creds = NULL) then mret Null else WrapStruct creds) w.
Proof.
  unfold well_shaped, passed_root_certs, passed_key_cert_pair, CreateSsl,
    optional_Buffer, omitted.
  intros Hshape.
  destruct (info_at info 0) as [| | | | |[] ?]; try discriminate Hshape;
    destruct (info_at info 1) as [| | | | |[] ?]; try discriminate Hshape;
    destruct (info_at info 2) as [| | | | |[] ?]; try discriminate Hshape;
    reflexivity.
Qed.

(** Short of that, [CreateSsl] throws and nothing has happened. *)
Lemma CreateSsl_ill_shaped (info : FunctionCallbackInfo) (w : World) :
  well_shaped info = false ->
  CreateSsl info w =
    (Thrown
       (if optional_Buffer (info_at info 0) && optional_Buffer (info_at info 1)
           && optional_Buffer (info_at info 2)
        then Error
               "createSsl's second and third arguments must be provided or omitted together"
        else Buffer_TypeError info), w).
Proof.
  unfold well_shaped, Buffer_TypeError, CreateSsl, optional_Buffer, omitted.
  unmonad. intros Hshape.
  destruct (info_at info 0) as [| | | | |[] ?]; simpl; try reflexivity.
  all: destruct (info_at info 1) as [| | | | |[] ?]; simpl; try reflexivity.
  all: destruct (info_at info 2) as [| | | | |[] ?]; simpl; try reflexivity.
  all: discriminate Hshape.
Qed.

(** When one of the first three arguments of createSsl is neither a Buffer nor
    null nor undefined, createSsl throws the TypeError of the first such
    argument, whatever the other arguments are, and the world is unchanged. *)
Theorem CreateSsl_rejects_non_Buffer (info : FunctionCallbackInfo) (w : World) :
  optional_Buffer (info_at info 0) && optional_Buffer (info_at info 1)
  && optional_Buffer (info_at info 2) = false ->
  CreateSsl info w = (Thrown (Buffer_TypeError info), w).
Proof.
  unfold Buffer_TypeError, CreateSsl, optional_Buffer, omitted. unmonad.
  intros Hbad.
  destruct (info_at info 0) as [| | | | |[] ?]; simpl; try reflexivity.
  all: destruct (info_at info 1) as [| | | | |[] ?]; simpl; try reflexivity.
  all: destruct (info_at info 2) as [| | | | |[] ?]; simpl; try reflexivity.
  all: discriminate Hbad.
Qed.

(** With three well-shaped arguments, a fourth argument that is neither
    undefined nor an object (null included) makes createSsl throw "createSsl's
    fourth argument must be an object", and a checkServerIdentity that is
    neither undefined nor a function makes it throw "Value of
    checkServerIdentity must be a function."; either way the world is
    unchanged. *)
Theorem CreateSsl_rejects_verify_options (info : FunctionCallbackInfo) (w : World) :
  well_shaped info = true ->
  (IsUndefined (info_at info 3) = false ->
   IsObject (info_at info 3) = false ->
   CreateSsl info w =
     (Thrown (TypeError "createSsl's fourth argument must be an object"), w)) ∧
  (∀ v,
     IsObject (info_at info 3) = true ->
     Nan_Get (info_at info 3) "checkServerIdentity" = Some v ->
     IsUndefined v = false ->
     IsFunction v = false ->
     CreateSsl info w =
       (Thrown (TypeError "Value of checkServerIdentity must be a function."),
        w)).
Proof.
  intros Hshape. rewrite (CreateSsl_past_Buffers _ _ Hshape). split.
  - intros Hdef Hobj. unmonad. by rewrite Hdef, Hobj.
  - intros v Hobj Hget Hdef Hfun.
    assert (IsUndefined (info_at info 3) = false) as Hdef3
      by (destruct (info_at info 3); done).
    unmonad. by rewrite Hdef3, Hobj, Hget, Hdef, Hfun.
Qed.

(** With three well-shaped arguments and an object as fourth argument whose
    checkServerIdentity getter throws, createSsl does not raise an exception:
    [ToLocalChecked] meets an empty handle and the process dies, before any
    callback is allocated or the library is called. *)
Theorem CreateSsl_getter_throws (info : FunctionCallbackInfo) (w : World) :
  well_shaped info = true ->
  IsObject (info_at info 3) = true ->
  Nan_Get (info_at info 3) "checkServerIdentity" = None ->
  CreateSsl info w = (Crashed, w).
Proof.
  intros Hshape Hobj Hget. rewrite (CreateSsl_past_Buffers _ _ Hshape).
  assert (IsUndefined (info_at info 3) = false) as Hdef3
    by (destruct (info_at info 3); done).
  unmonad. by rewrite Hdef3, Hobj, Hget.
Qed.

(** createSsl cannot tell null from undefined in its first three arguments,
    reads nothing but its first four arguments, and so gives the same result
    on two calls that agree on the fourth argument and, up to omission, on the
    first three: receiver, construct flag and further arguments play no
    part. *)
Theorem CreateSsl_omitted_arguments (info info' : FunctionCallbackInfo) (w : World) :
  same_argument (info_at info 0) (info_at info' 0) ->
  same_argument (info_at info 1) (info_at info' 1) ->
  same_argument (info_at info 2) (info_at info' 2) ->
  info_at info 3 = info_at info' 3 ->
  CreateSsl info w = CreateSsl info' w.
Proof.
  intros Ha0 Ha1 Ha2 Ha3.
  assert (∀ v v' msg,
            same_argument v v' ->
            (if Buffer_HasInstance v then mret (assign v)
             else if negb (IsNull v || IsUndefined v) then ThrowTypeError msg
             else mret None : M StringOrNull) =
            (if Buffer_HasInstance v' then mret (assign v')
             else if negb (IsNull v' || IsUndefined v') then ThrowTypeError msg
             else mret None)) as Hblock.
  { intros v v' msg [->|[Ha Hb]]; [done|]. unfold omitted in *.
    destruct v as [| | | | |[] ?]; try discriminate Ha;
      destruct v' as [| | | | |[] ?]; try discriminate Hb; reflexivity. }
  unfold CreateSsl.
  rewrite (Hblock _ _ _ Ha0), (Hblock _ _ _ Ha1), (Hblock _ _ _ Ha2), Ha3.
  reflexivity.
Qed.

(** ** How the methods can end *)

(** [CreateSsl] ends in one of three ways: an exception or a crash with
    nothing changed, or one call to the library's constructor, made on the
    arguments read from the call, with or without a new registration, whose
    answer is wrapped or turned into null. *)
Lemma CreateSsl_outcome (info : FunctionCallbackInfo) (w w' : World)
    (r : result Value) :
  CreateSsl info w = (r, w') ->
  (∃ e, r = Thrown e ∧ w' = w) ∨
  (r = Crashed ∧ w' = w) ∨
  (∃ vo w0 creds s,
     (vo = no_verify_options ∧ w0 = w ∨
      ∃ f props,
        Nan_Get (info_at info 3) "checkServerIdentity" =
          Some (Object (KFunction f) props) ∧
        vo = registration (new_address w) ∧
        w0 = set_nan_callbacks (<[new_address w := f]> (nan_callbacks w)) w) ∧
     grpc_ssl_credentials_create (passed_root_certs info)
       (passed_key_cert_pair info) vo (core w) = (creds, s) ∧
     ∃ w1,
       w1 = entered_core
              (call_grpc_ssl_credentials_create (passed_root_certs info)
                 (passed_key_cert_pair info) vo) s w0 ∧
       (creds = NULL ∧ r = Done Null ∧ w' = w1 ∨
        creds ≠ NULL ∧
        r = Done (Object (KChannelCredentials (new_address w1)) ∅) ∧
        w' = set_channel_credentials
               (<[new_address w1 := creds]> (channel_credentials w1)) w1)).
Proof.
  destruct (well_shaped info) eqn:Hshape;
    [|rewrite (CreateSsl_ill_shaped _ _ Hshape); intros [= <- <-]; left;
      by eexists].
  rewrite (CreateSsl_past_Buffers _ _ Hshape).
  assert (∀ vo w0,
            (vo = no_verify_options ∧ w0 = w ∨
             ∃ f props,
               Nan_Get (info_at info 3) "checkServerIdentity" =
                 Some (Object (KFunction f) props) ∧
               vo = registration (new_address w) ∧
               w0 = set_nan_callbacks
                      (<[new_address w := f]> (nan_callbacks w)) w) ->
            (creds ← core_ssl_credentials_create (passed_root_certs info)
                       (passed_key_cert_pair info) vo;
             if decide (creds = NULL) then mret Null else WrapStruct creds) w0 =
              (r, w') ->
            ∃ vo w0 creds s,
              (vo = no_verify_options ∧ w0 = w ∨
               ∃ f props,
                 Nan_Get (info_at info 3) "checkServerIdentity" =
                   Some (Object (KFunction f) props) ∧
                 vo = registration (new_address w) ∧
                 w0 = set_nan_callbacks
                        (<[new_address w := f]> (nan_callbacks w)) w) ∧
              grpc_ssl_credentials_create (passed_root_certs info)
                (passed_key_cert_pair info) vo (core w) = (creds, s) ∧
              ∃ w1,
                w1 = entered_core
                       (call_grpc_ssl_credentials_create
                          (passed_root_certs info)
                          (passed_key_cert_pair info) vo) s w0 ∧
                (creds = NULL ∧ r = Done Null ∧ w' = w1 ∨
                 creds ≠ NULL ∧
                 r = Done (Object (KChannelCredentials (new_address w1)) ∅) ∧
                 w' = set_channel_credentials
                        (<[new_address w1 := creds]> (channel_credentials w1))
                        w1)) as Htail.
  { intros vo w0 Hvo. unfold core_ssl_credentials_create. unmonad.
    assert (core w0 = core w) as -> by (by destruct Hvo as [[_ ->]|(?&?&_&_&->)]).
    destruct (grpc_ssl_credentials_create _ _ _ _) as [creds s] eqn:Hcore.
    intros Hr. exists vo, w0, creds, s. split; [done|]. split; [done|].
    eexists. split; [reflexivity|].
    destruct (decide (creds = NULL)).
    - left. by injection Hr as <- <-.
    - right. rewrite WrapStruct_instance in Hr. by injection Hr as <- <-. }
  unmonad.
  destruct (IsUndefined (info_at info 3)); simpl.
  { intros Hr. right. right. apply (Htail no_verify_options w); [by left|done]. }
  destruct (IsObject (info_at info 3)); simpl;
    [|intros [= <- <-]; left; by eexists].
  destruct (Nan_Get (info_at info 3) "checkServerIdentity") as [v|] eqn:Hget;
    [|intros [= <- <-]; right; by left].
  destruct (IsUndefined v); simpl.
  { intros Hr. right. right. apply (Htail no_verify_options w); [by left|done]. }
  destruct (IsFunction v) eqn:Hfun; simpl; [|intros [= <- <-]; left; by eexists].
  destruct v as [| | | | |[] props]; try discriminate Hfun. simpl.
  intros Hr. right. right.
  eapply Htail; [|exact Hr]. right. by eexists _, _.
Qed.

(** [Compose] ends in one of three ways: an exception or a crash with nothing
    changed, or one call to the composite constructor on the two wrapped
    pointers, whose answer is wrapped or turned into null. *)
Lemma Compose_outcome (info : FunctionCallbackInfo) (w w' : World)
    (r : result Value) :
  Compose info w = (r, w') ->
  (∃ e, r = Thrown e ∧ w' = w) ∨
  (r = Crashed ∧ w' = w) ∨
  (∃ channel_creds call_creds creds s,
     Compose_accepts info w channel_creds call_creds ∧
     grpc_composite_channel_credentials_create channel_creds call_creds
       (core w) = (creds, s) ∧
     ∃ w1,
       w1 = entered_core
              (call_grpc_composite_channel_credentials_create channel_creds
                 call_creds) s w ∧
       (creds = NULL ∧ r = Done Null ∧ w' = w1 ∨
        creds ≠ NULL ∧
        r = Done (Object (KChannelCredentials (new_address w1)) ∅) ∧
        w' = set_channel_credentials
               (<[new_address w1 := creds]> (channel_credentials w1)) w1)).
Proof.
  unfold Compose, Compose_accepts. unmonad.
  destruct (ChannelCredentials_HasInstance (This info)) eqn:Hthis; simpl;
    [|intros [= <- <-]; left; by eexists].
  destruct (CallCredentials_HasInstance (info_at info 0)) eqn:Harg; simpl;
    [|intros [= <- <-]; left; by eexists].
  destruct (This info) as [| | | | |[| | | | |self|] props];
    try discriminate Hthis.
  destruct (info_at info 0) as [| | | | |[| | | | | |other] props'];
    try discriminate Harg.
  simpl. unfold GetWrappedCredentials, CallCredentials_GetWrappedCredentials.
  destruct (channel_credentials w !! self) as [channel_creds|] eqn:Hself;
    [|intros [= <- <-]; right; by left].
  destruct (decide (channel_creds = NULL)) as [->|Hsecure];
    [intros [= <- <-]; left; by eexists|].
  destruct (call_credentials w !! other) as [call_creds|] eqn:Hother;
    [|intros [= <- <-]; right; by left].
  unfold core_composite_channel_credentials_create.
  destruct (grpc_composite_channel_credentials_create _ _ _) as [creds s]
    eqn:Hcore.
  intros Hr. right. right. exists channel_creds, call_creds, creds, s.
  split; [naive_solver|]. split; [done|]. eexists. split; [reflexivity|].
  destruct (decide (creds = NULL)).
  - left. by injection Hr as <- <-.
  - right. rewrite WrapStruct_instance in Hr. by injection Hr as <- <-.
Qed.

(** When New, createSsl or compose raises an exception, the world is as it
    was before the call: every check that can throw comes before the first
    allocation and before the call into the library. *)
Theorem exceptions_leave_world_unchanged
    (info : FunctionCallbackInfo) (w w' : World) (e : js_exception) :
  (New info w = (Thrown e, w') -> w' = w) ∧
  (CreateSsl info w = (Thrown e, w') -> w' = w) ∧
  (Compose info w = (Thrown e, w') -> w' = w).
Proof.
  split_and!.
  - unfold New, External_Value, new_ChannelCredentials. unmonad.
    destruct (IsConstructCall info); [|by intros [= _ <-]].
    destruct (negb _); [by intros [= _ <-]|].
    destruct (info_at info 0) as [| | | | |[] ?]; discriminate.
  - intros Hr.
    destruct (CreateSsl_outcome _ _ _ _ Hr)
      as [(? & _ & ->)|[[_ ->]|(vo & w0 & creds & s & _ & _ & w1 & _ & Hend)]];
      [done..|].
    destruct Hend as [(_ & ? & _)|(_ & ? & _)]; discriminate.
  - intros Hr.
    destruct (Compose_outcome _ _ _ _ Hr)
      as [(? & _ & ->)|[[_ ->]|(c1 & c2 & creds & s & _ & _ & w1 & _ & Hend)]];
      [done..|].
    destruct Hend as [(_ & ? & _)|(_ & ? & _)]; discriminate.
Qed.

(** What createSsl or compose returns is null, and then no wrapper was made,
    or a ChannelCredentials instance at an address that held no wrapper
    before, whose wrapper is live and holds a pointer that is not NULL: these
    two methods never make an insecure handle. *)
Theorem results_are_null_or_secure
    (info : FunctionCallbackInfo) (w w' : World) (v : Value) :
  CreateSsl info w = (Done v, w') ∨ Compose info w = (Done v, w') ->
  v = Null ∧ channel_credentials w' = channel_credentials w ∨
  ∃ self creds,
    v = Object (KChannelCredentials self) ∅ ∧
    channel_credentials w !! self = None ∧
    channel_credentials w' !! self = Some creds ∧
    creds ≠ NULL.
Proof.
  assert (∀ w0 w1 creds (c : native_call) (s : core_state),
            channel_credentials w0 = channel_credentials w ->
            w1 = entered_core c s w0 ->
            creds = NULL ∧ Done v = Done Null ∧ w' = w1 ∨
            creds ≠ NULL ∧
            Done v = Done (Object (KChannelCredentials (new_address w1)) ∅) ∧
            w' = set_channel_credentials
                   (<[new_address w1 := creds]> (channel_credentials w1)) w1 ->
            v = Null ∧ channel_credentials w' = channel_credentials w ∨
            ∃ self creds,
              v = Object (KChannelCredentials self) ∅ ∧
              channel_credentials w !! self = None ∧
              channel_credentials w' !! self = Some creds ∧
              creds ≠ NULL) as Hend.
  { intros w0 w1 creds c s Hsame -> [(_ & [= ->] & ->)|(Hne & [= ->] & ->)].
    - left. by split.
    - right. eexists _, creds. split; [reflexivity|]. split_and!; [|simpl|done].
      + rewrite <- Hsame.
        apply (new_address_not_channel_credentials (entered_core c s w0)).
      + apply lookup_insert_eq. }
  intros [Hr|Hr].
  - destruct (CreateSsl_outcome _ _ _ _ Hr)
      as [(? & ? & _)|[[? _]|(vo & w0 & creds & s & Hvo & _ & w1 & Hw1 & H')]];
      [discriminate..|].
    eapply Hend; [|exact Hw1|exact H'].
    by destruct Hvo as [[_ ->]|(? & ? & _ & _ & ->)].
  - destruct (Compose_outcome _ _ _ _ Hr)
      as [(? & ? & _)|[[? _]|(c1 & c2 & creds & s & _ & _ & w1 & Hw1 & H')]];
      [discriminate..|].
    by eapply Hend; [|exact Hw1|exact H'].
Qed.

(** createSsl hands the library the bytes it was given: with three Buffers,
    a call that returns has logged one request carrying the root certificates
    and the pair of private key and certificate chain, in that order; with key
    and chain left out the request carries no pair. *)
Theorem CreateSsl_passes_bytes
    (info : FunctionCallbackInfo) (w w' : World) (v : Value) :
  CreateSsl info w = (Done v, w') ->
  (∀ root key chain p0 p1 p2,
     info_at info 0 = Object (KBuffer root) p0 ->
     info_at info 1 = Object (KBuffer key) p1 ->
     info_at info 2 = Object (KBuffer chain) p2 ->
     ∃ vo,
       native_calls w' =
         native_calls w ++
           [call_grpc_ssl_credentials_create (Some root)
              (Some {| private_key := Some key; cert_chain := Some chain |})
              vo]) ∧
  (omitted (info_at info 0) = true ->
   omitted (info_at info 1) = true ->
   ∃ vo,
     native_calls w' =
       native_calls w ++ [call_grpc_ssl_credentials_create None None vo]).
Proof.
  intros Hr.
  destruct (CreateSsl_outcome _ _ _ _ Hr)
    as [(? & ? & _)|[[? _]|(vo & w0 & creds & s & Hvo & _ & w1 & -> & Hend)]];
    [discriminate..|].
  assert (native_calls w' =
            native_calls w ++
              [call_grpc_ssl_credentials_create (passed_root_certs info)
                 (passed_key_cert_pair info) vo]) as ->.
  { assert (native_calls w0 = native_calls w) as <-
      by (by destruct Hvo as [[_ ->]|(? & ? & _ & _ & ->)]).
    by destruct Hend as [(_ & _ & ->)|(_ & _ & ->)]. }
  unfold passed_root_certs, passed_key_cert_pair, omitted. split.
  - intros root key chain p0 p1 p2 -> -> ->. by exists vo.
  - intros H0' H1'. exists vo.
    destruct (info_at info 0) as [| | | | |[] ?]; try discriminate H0';
      destruct (info_at info 1) as [| | | | |[] ?]; try discriminate H1';
      reflexivity.
Qed.

(** New, createInsecure, the bridge and the destruct routine stay outside
    the library: whatever their result, no call is logged and the library's
    state is the same; the first two also leave the callbacks alone, the
    bridge changes nothing at all, and the destruct routine leaves the
    wrappers alone. *)
Theorem outside_the_library (w : World) :
  (∀ info r w',
     New info w = (r, w') ->
     native_calls w' = native_calls w ∧ core w' = core w ∧
     nan_callbacks w' = nan_callbacks w) ∧
  (∀ info r w',
     CreateInsecure info w = (r, w') ->
     native_calls w' = native_calls w ∧ core w' = core w ∧
     nan_callbacks w' = nan_callbacks w) ∧
  (∀ servername cert userdata r w',
     verify_peer_callback_wrapper servername cert userdata w = (r, w') ->
     w' = w) ∧
  (∀ userdata r w',
     verify_peer_callback_destruct userdata w = (r, w') ->
     native_calls w' = native_calls w ∧ core w' = core w ∧
     channel_credentials w' = channel_credentials w).
Proof.
  split_and!.
  - intros info r w'. unfold New, External_Value, new_ChannelCredentials.
    unmonad.
    destruct (IsConstructCall info); [|by intros [= _ <-]].
    destruct (negb _); [by intros [= _ <-]|].
    destruct (info_at info 0) as [| | | | |[] ?]; by intros [= _ <-].
  - intros info r w'. unfold CreateInsecure. rewrite WrapStruct_instance.
    by intros [= _ <-].
  - intros servername cert userdata r w'.
    unfold verify_peer_callback_wrapper, deref_Callback, TryCatch, Nan_Call.
    unmonad.
    destruct (nan_callbacks w !! userdata); [|by intros [= _ <-]].
    destruct (js_call _ _) as [v|v]; simpl;
      [destruct (IsNativeError v)|]; by intros [= _ <-].
  - intros userdata r w'. unfold verify_peer_callback_destruct.
    destruct (decide _); [by intros [= _ <-]|].
    destruct (nan_callbacks w !! userdata); by intros [= _ <-].
Qed.

(** ** Registrations *)

(** When the library refuses a request that carries a registration, createSsl
    returns null and makes no wrapper, and the callback allocated for the
    request is still allocated: nothing in createSsl frees it. *)
Theorem CreateSsl_failure_keeps_callback
    (info : FunctionCallbackInfo) (w : World) (f : fun_id)
    (props : gmap string (property Value)) (s : core_state) :
  well_shaped info = true ->
  IsObject (info_at info 3) = true ->
  Nan_Get (info_at info 3) "checkServerIdentity" =
    Some (Object (KFunction f) props) ->
  grpc_ssl_credentials_create (passed_root_certs info)
    (passed_key_cert_pair info) (registration (new_address w)) (core w) =
    (NULL, s) ->
  ∃ w',
    CreateSsl info w = (Done Null, w') ∧
    nan_callbacks w !! new_address w = None ∧
    nan_callbacks w' !! new_address w = Some f ∧
    channel_credentials w' = channel_credentials w.
Proof.
  intros Hshape Hobj Hget Hcore.
  rewrite (CreateSsl_with_callback _ _ _ _ Hshape Hobj Hget).
  unfold core_ssl_credentials_create. unmonad. simpl. rewrite Hcore. simpl.
  eexists. split; [reflexivity|].
  split; [apply new_address_not_nan_callbacks|].
  split; [simpl; apply lookup_insert_eq|done].
Qed.

(** The bridge reads the world only through the callback its user data
    points to. *)
Lemma verify_peer_callback_wrapper_reads_callback
    (servername cert : option string) (userdata : ptr) (w1 w2 : World) :
  nan_callbacks w1 !! userdata = nan_callbacks w2 !! userdata ->
  (verify_peer_callback_wrapper servername cert userdata w1).1 =
    (verify_peer_callback_wrapper servername cert userdata w2).1.
Proof.
  intros Hsame.
  unfold verify_peer_callback_wrapper, deref_Callback, TryCatch, Nan_Call.
  unmonad. rewrite Hsame.
  destruct (nan_callbacks w2 !! userdata); [|done].
  destruct (js_call _ _) as [v|v]; simpl; [destruct (IsNativeError v)|]; done.
Qed.

(** A live callback survives every step but the destruct routine run on
    it. *)
Lemma exec_preserves_callback (a : action) (w w' : World) (userdata : ptr)
    (f : fun_id) :
  a ≠ CoreVerifyPeerDestruct userdata ->
  exec a w = Some w' ->
  nan_callbacks w !! userdata = Some f ->
  nan_callbacks w' !! userdata = Some f.
Proof.
  intros Hne Hexec Hlive.
  destruct (is_CoreVerifyPeerDestruct a) eqn:Hd.
  - destruct a as [| | | | | |other]; try discriminate.
    revert Hexec. unfold exec. simpl. unfold verify_peer_callback_destruct.
    destruct (decide (other = NULL)); [by intros [= <-]|].
    destruct (nan_callbacks w !! other); [|discriminate].
    intros [= <-]. simpl. rewrite lookup_delete_ne; [done|congruence].
  - eapply lookup_weaken; [done|]. by eapply exec_keeps_callbacks.
Qed.

(** Registrations do not depend on each other: the destruct routine run on
    one user data leaves the callback behind any other user data allocated,
    and the bridge answers on it as before. *)
Theorem registrations_independent
    (w w' : World) (userdata other : ptr) (f : fun_id) (r : result unit) :
  userdata ≠ other ->
  nan_callbacks w !! other = Some f ->
  verify_peer_callback_destruct userdata w = (r, w') ->
  nan_callbacks w' !! other = Some f ∧
  ∀ servername cert,
    (verify_peer_callback_wrapper servername cert other w').1 =
      (verify_peer_callback_wrapper servername cert other w).1.
Proof.
  intros Hne Hlive Hd.
  assert (nan_callbacks w' !! other = Some f) as Hlive'.
  { revert Hd. unfold verify_peer_callback_destruct.
    destruct (decide (userdata = NULL)); [by intros [= _ <-]|].
    destruct (nan_callbacks w !! userdata); [|by intros [= _ <-]].
    intros [= _ <-]. simpl. by rewrite lookup_delete_ne. }
  split; [done|]. intros servername cert.
  apply verify_peer_callback_wrapper_reads_callback. congruence.
Qed.

(** A registration outlives the handles: over any run of steps in which the
    library does not run the destruct routine on its user data (calls of the
    methods, collections of wrappers, invocations of the bridge, other
    registrations coming and going) the callback stays allocated and holds the
    same function, so the bridge invoked on it still returns one of its three
    signals and does not run into a dead callback. *)
Theorem registration_outlives_handles
    (acts : list action) (w w' : World) (userdata : ptr) (f : fun_id) :
  nan_callbacks w !! userdata = Some f ->
  CoreVerifyPeerDestruct userdata ∉ acts ->
  run acts w = Some w' ->
  nan_callbacks w' !! userdata = Some f ∧
  ∀ servername cert,
    ∃ signal,
      verify_peer_callback_wrapper servername cert userdata w' =
        (Done signal, w') ∧
      (signal = 0 ∨ signal = 1 ∨ signal = 2)%Z.
Proof.
  intros Hlive Hnot Hrun.
  assert (nan_callbacks w' !! userdata = Some f) as Hlive'.
  { revert w Hlive Hrun. induction acts as [|a acts IH]; intros w Hlive Hrun.
    - by injection Hrun as <-.
    - simpl in Hrun. destruct (exec a w) as [w1|] eqn:Hexec; [|discriminate].
      apply (IH ltac:(set_solver) w1); [|done].
      eapply exec_preserves_callback; [|done..]. set_solver. }
  split; [done|]. intros servername cert.
  unfold verify_peer_callback_wrapper, deref_Callback, TryCatch, Nan_Call.
  unmonad. rewrite Hlive'.
  destruct (js_call f _) as [v|v]; simpl; [destruct (IsNativeError v)|];
    eexists; (split; [reflexivity|]); auto.
Qed.

(** ** Handles over time *)

(** What a handle wraps is fixed when it is made: over any run of steps that
    does not collect the handle, [GetWrappedCredentials] reads the same
    pointer, without changing the world. *)
Theorem wrapped_credentials_stable
    (acts : list action) (w w' : World) (self creds : ptr) :
  channel_credentials w !! self = Some creds ->
  Collect self ∉ acts ->
  run acts w = Some w' ->
  GetWrappedCredentials self w' = (Done creds, w').
Proof.
  intros Hlive Hnot Hrun. unfold GetWrappedCredentials.
  by rewrite (run_preserves_handle acts w w' self creds Hnot Hrun Hlive).
Qed.

(** Composition chains: when a compose returns a handle and not null, the
    library's composite constructor, called on the receiver's credentials and
    the argument's, returned a pointer that is not NULL, the returned handle
    wraps that pointer and passes every check of compose in its turn with the
    same argument; and so does the receiver, again. *)
Theorem Compose_result_composes
    (info : FunctionCallbackInfo) (w w' : World) (v : Value) :
  Compose info w = (Done v, w') ->
  v ≠ Null ->
  ∃ channel_creds call_creds creds s,
    Compose_accepts info w channel_creds call_creds ∧
    grpc_composite_channel_credentials_create channel_creds call_creds
      (core w) = (creds, s) ∧
    creds ≠ NULL ∧
    Compose_accepts info w' channel_creds call_creds ∧
    Compose_accepts
      {| This := v; args := args info; IsConstructCall := IsConstructCall info |}
      w' creds call_creds.
Proof.
  intros Hr Hv.
  destruct (Compose_outcome _ _ _ _ Hr)
    as [(? & ? & _)|[[? _]|(c1 & c2 & creds & s & Hacc & Hcore & w1 & -> & Hend)]];
    [discriminate..|].
  destruct Hend as [(_ & [= ->] & _)|(Hne & [= ->] & ->)]; [done|].
  exists c1, c2, creds, s. split; [done|]. split; [done|]. split; [done|].
  destruct Hacc as ((self & props & Hthis & Hself) & Hsecure & Harg).
  set (w1 := entered_core _ s w).
  assert (new_address w1 ≠ self) as Hnself.
  { intros Heq. destruct (new_address_fresh w1) as [_ Hfresh]. apply Hfresh.
    rewrite Heq. unfold allocated.
    apply elem_of_union_l, elem_of_union_l, elem_of_dom. by eexists. }
  split.
  - split; [|done]. exists self, props. split; [done|]. simpl.
    by rewrite lookup_insert_ne.
  - split; [|done]. eexists _, _. split; [reflexivity|]. simpl.
    apply lookup_insert_eq.
Qed.

(** Releases are collections: over any run of steps the log gains exactly one
    release call per wrapper collected, and none for anything else. *)
Theorem releases_count_collections (acts : list action) (w w' : World) :
  run acts w = Some w' ->
  length (releases (native_calls w')) =
    length (releases (native_calls w))
    + length (filter (λ a, is_Collect a = true) acts).
Proof.
  revert w. induction acts as [|a acts IH]; intros w Hrun.
  - injection Hrun as <-. simpl. lia.
  - simpl in Hrun. destruct (exec a w) as [w1|] eqn:Hexec; [|discriminate].
    rewrite (IH w1 Hrun). destruct (is_Collect a) eqn:Hc.
    + rewrite filter_cons_True by done.
      destruct a; try discriminate.
      apply exec_Collect in Hexec as (creds & s & _ & _ & ->). simpl.
      rewrite releases_app, length_app. simpl. lia.
    + rewrite filter_cons_False by congruence.
      assert (releases (native_calls w1) = releases (native_calls w)) as ->;
        [|done].
      destruct (is_CoreVerifyPeerDestruct a) eqn:Hd.
      * destruct a; try discriminate.
        by apply exec_CoreVerifyPeerDestruct in Hexec as (_ & _ & -> & _).
      * by apply exec_extends in Hexec as [_ _ _ Hrel].
Qed.

(** Compose, then the collection of the handle it returned: the wrappers,
    the call credentials and the callbacks are what they were before the
    compose; the library has been called twice, by the composite constructor
    on the two wrapped pointers and by the release routine on the pointer that
    constructor returned, and its state is the one those two calls left. *)
Theorem Compose_then_Collect
    (info : FunctionCallbackInfo) (w w1 w2 : World) (new : ptr)
    (props : gmap string (property Value)) :
  Compose info w = (Done (Object (KChannelCredentials new) props), w1) ->
  exec (Collect new) w1 = Some w2 ->
  channel_credentials w2 = channel_credentials w ∧
  call_credentials w2 = call_credentials w ∧
  nan_callbacks w2 = nan_callbacks w ∧
  ∃ channel_creds call_creds creds s s',
    Compose_accepts info w channel_creds call_creds ∧
    grpc_composite_channel_credentials_create channel_creds call_creds
      (core w) = (creds, s) ∧
    creds ≠ NULL ∧
    grpc_channel_credentials_release creds s = Some s' ∧
    core w2 = s' ∧
    native_calls w2 =
      native_calls w ++
        [call_grpc_composite_channel_credentials_create channel_creds
           call_creds;
         call_grpc_channel_credentials_release creds].
Proof.
  intros Hr Hexec.
  destruct (Compose_outcome _ _ _ _ Hr)
    as [(? & ? & _)|[[? _]|(c1 & c2 & creds & s & Hacc & Hcore & w0 & -> & Hend)]];
    [discriminate..|].
  destruct Hend as [(_ & ? & _)|(Hne & [= -> _] & ->)]; [discriminate|].
  set (w0 := entered_core _ s w) in *.
  apply exec_Collect in Hexec as (creds' & s' & Hlive & Hrel & ->).
  simpl in Hlive. rewrite lookup_insert_eq in Hlive. injection Hlive as <-.
  simpl. split_and!; try done.
  - apply delete_insert_id.
    apply (new_address_not_channel_credentials w0).
  - exists c1, c2, creds, s, s'. split_and!; try done.
    by rewrite <- app_assoc.
Qed.

End Properties.

(** * The properties at work on the reference library and host *)

Import Reference.

Lemma verify_peer_callback_wrapper_signal_witness :
  nan_callbacks sample_world !! 4%N = Some 2 ∧
  verify_peer_callback_wrapper (Some "peer.example") None 4%N sample_world =
    (Done 2%Z, sample_world).
Proof.
  split; [reflexivity|].
  exact (verify_peer_callback_wrapper_signal sample_world
           (Some "peer.example") None 4%N 2 eq_refl).
Defined.

Lemma New_rejects_direct_invocation_witness :
  (IsConstructCall (call Undefined [New_External 40%N]) = false ∨
   IsExternal (info_at (call Undefined [New_External 40%N]) 0) = false) ∧
  New (call Undefined [New_External 40%N]) sample_world =
    (Thrown
       (TypeError
          "ChannelCredentials can only be created with the provided functions"),
     sample_world).
Proof.
  split; [left; reflexivity|].
  apply New_rejects_direct_invocation. left. reflexivity.
Defined.

Lemma Compose_insecure_rejected_witness :
  channel_credentials sample_world !! 1%N = Some NULL ∧
  Compose {| This := handle 1%N; args := [call_handle 3%N];
             IsConstructCall := false |} sample_world =
    (Thrown (TypeError "Cannot compose insecure credential"), sample_world).
Proof.
  split; [reflexivity|].
  exact (Compose_insecure_rejected sample_world 1%N 3%N ∅ ∅ [] false eq_refl).
Defined.

Lemma Compose_type_checks_witness :
  (ChannelCredentials_HasInstance (This (call Undefined [call_handle 3%N])) = false ∨
   CallCredentials_HasInstance (info_at (call Undefined [call_handle 3%N]) 0) = false) ∧
  Compose (call Undefined [call_handle 3%N]) sample_world =
    (Thrown
       (TypeError "compose can only be called on ChannelCredentials objects"),
     sample_world).
Proof.
  split; [left; reflexivity|].
  exact (proj1 (Compose_type_checks (call Undefined [call_handle 3%N])
                  sample_world) (or_introl eq_refl)).
Defined.

Lemma CreateSsl_key_and_chain_together_witness :
  omitted (info_at (call Undefined [Null; buffer []; Null]) 1) ≠
    omitted (info_at (call Undefined [Null; buffer []; Null]) 2) ∧
  CreateSsl (call Undefined [Null; buffer []; Null]) sample_world =
    (Thrown
       (Error
          "createSsl's second and third arguments must be provided or omitted together"),
     sample_world).
Proof.
  split; [discriminate|].
  apply (CreateSsl_key_and_chain_together (call Undefined [Null; buffer []; Null])
           sample_world).
  discriminate.
Defined.

Lemma construction_failure_returns_null_witness :
  CreateSsl_accepts (call Undefined []) = true ∧
  Compose_accepts (call (handle 5%N) [call_handle 3%N]) sample_world 77%N 50%N ∧
  (∃ self w',
     CreateSsl (call Undefined []) sample_world = (Done (handle self), w')) ∧
  (∃ w', Compose (call (handle 5%N) [call_handle 3%N]) sample_world =
           (Done Null, w')).
Proof.
  assert (Compose_accepts (call (handle 5%N) [call_handle 3%N]) sample_world
            77%N 50%N) as Hacc.
  { split; [by exists 5%N, ∅|]. split; [discriminate|]. by exists 3%N, ∅. }
  destruct construction_failure_returns_null as [Hssl Hcompose].
  split; [reflexivity|]. split; [exact Hacc|]. split.
  - destruct (Hssl (call Undefined []) sample_world eq_refl)
      as (vo & w0 & _ & _ & _ & Hres).
    destruct (Hres 51%N (<[51%N := 1]> (core sample_world)) eq_refl)
      as [_ Hnew].
    destruct (Hnew ltac:(discriminate)) as (self & _ & Heq).
    eexists self, _. exact Heq.
  - destruct (Hcompose _ _ _ _ Hacc NULL (core sample_world) eq_refl)
      as [Hnull _].
    eexists. exact (Hnull eq_refl).
Defined.


(** The checks of the first three arguments come before the verify options
    are read: a private key without a certificate chain is rejected with no
    callback allocated, whatever the fourth argument. *)
Example CreateSsl_checks_precede_registration :
  IsObject (info_at unpaired_key_with_verify 3) = true ∧
  Nan_Get (info_at unpaired_key_with_verify 3) "checkServerIdentity" =
    Some (Object (KFunction 0) ∅) ∧
  CreateSsl unpaired_key_with_verify empty_world =
    (Thrown
       (Error
          "createSsl's second and third arguments must be provided or omitted together"),
     empty_world) ∧
  nan_callbacks empty_world = ∅ ∧
  native_calls empty_world = [].
Proof. split_and!; reflexivity. Qed.

Lemma CreateInsecure_never_fails_witness :
  ∃ self w1,
    CreateInsecure (call Undefined []) sample_world = (Done (handle self), w1) ∧
    Compose {| This := handle self; args := [call_handle 3%N];
               IsConstructCall := false |} w1 =
      (Thrown (TypeError "Cannot compose insecure credential"), w1).
Proof.
  destruct (CreateInsecure_never_fails (call Undefined []) sample_world)
    as (self & w1 & Hcreate & _ & _ & Hcompose).
  exists self, w1. split; [exact Hcreate|].
  destruct (Hcompose [] w1 eq_refl (not_elem_of_nil _) ∅ [call_handle 3%N] false)
    as (msg & Heq & Hmsg).
  rewrite (Hmsg eq_refl) in Heq. exact Heq.
Defined.

Lemma Compose_leaves_inputs_witness :
  Compose_accepts (call (handle 2%N) [call_handle 3%N]) sample_world 40%N 50%N ∧
  grpc_composite_channel_credentials_create 40%N 50%N (core sample_world) =
    (51%N, <[51%N := 1]> (<[40%N := 2]> (core sample_world))) ∧
  51%N ≠ NULL ∧
  ∃ new w',
    Compose (call (handle 2%N) [call_handle 3%N]) sample_world =
      (Done (handle new), w') ∧
    native_calls w' =
      [call_grpc_composite_channel_credentials_create 40%N 50%N] ∧
    core w' = <[51%N := 1]> (<[40%N := 2]> (core sample_world)) ∧
    channel_credentials w' !! 2%N = Some 40%N ∧
    call_credentials w' !! 3%N = Some 50%N.
Proof.
  assert (Compose_accepts (call (handle 2%N) [call_handle 3%N]) sample_world
            40%N 50%N) as Hacc.
  { split; [by exists 2%N, ∅|]. split; [discriminate|]. by exists 3%N, ∅. }
  split; [exact Hacc|]. split; [reflexivity|]. split; [discriminate|].
  destruct (Compose_leaves_inputs _ _ _ _ _ _ Hacc eq_refl ltac:(discriminate))
    as (new & w' & Heq & _ & _ & _ & _ & Hcall & _ & Hlog & Hcore & Hagain & _).
  exists new, w'. split; [exact Heq|]. split; [exact Hlog|].
  split; [exact Hcore|]. split.
  - destruct Hagain as ((self & props & [= <-] & Hself) & _). exact Hself.
  - rewrite Hcall. reflexivity.
Defined.



(** The three signals of the bridge, on the reference host. *)
Example bridge_accept :
  (verify_peer_callback_wrapper (Some "peer.example") (Some "PEM") 4%N
     (set_nan_callbacks {[4%N := 0]} empty_world)).1 = Done 0%Z.
Proof. reflexivity. Qed.

Example bridge_reject :
  (verify_peer_callback_wrapper (Some "peer.example") (Some "PEM") 4%N
     (set_nan_callbacks {[4%N := 1]} empty_world)).1 = Done 1%Z.
Proof. reflexivity. Qed.

Example bridge_reject_with_exception :
  (verify_peer_callback_wrapper None None 4%N sample_world).1 = Done 2%Z.
Proof. reflexivity. Qed.

(** A handle made by createSsl, composed, then both collected: the library
    sees the two constructor calls and one release per handle. *)
Example lifecycle :
  native_calls
    <$> run [CallCreateSsl (call Undefined []);
             CallCompose (call (handle 6%N) [call_handle 3%N]);
             Collect 6%N; Collect 7%N] sample_world =
  Some [call_grpc_ssl_credentials_create None None no_verify_options;
        call_grpc_composite_channel_credentials_create 51%N 50%N;
        call_grpc_channel_credentials_release 51%N;
        call_grpc_channel_credentials_release 52%N].
Proof. vm_compute. reflexivity. Qed.

(** * The further properties at work *)

Lemma CreateSsl_rejects_non_Buffer_witness :
  optional_Buffer (info_at (call Undefined [Null; String "key"; Number 3]) 0)
  && optional_Buffer (info_at (call Undefined [Null; String "key"; Number 3]) 1)
  && optional_Buffer (info_at (call Undefined [Null; String "key"; Number 3]) 2)
  = false ∧
  CreateSsl (call Undefined [Null; String "key"; Number 3]) sample_world =
    (Thrown
       (TypeError "createSSl's second argument must be a Buffer if provided"),
     sample_world).
Proof.
  split; [reflexivity|].
  exact (CreateSsl_rejects_non_Buffer
           (call Undefined [Null; String "key"; Number 3]) sample_world eq_refl).
Defined.

Lemma CreateSsl_rejects_verify_options_witness :
  well_shaped (call Undefined [Null; Null; Null; Null]) = true ∧
  CreateSsl (call Undefined [Null; Null; Null; Null]) sample_world =
    (Thrown (TypeError "createSsl's fourth argument must be an object"),
     sample_world) ∧
  CreateSsl (call Undefined [Null; Null; Null;
                             Object KPlain
                               {["checkServerIdentity" := DataProp (Number 1)]}])
    sample_world =
    (Thrown (TypeError "Value of checkServerIdentity must be a function."),
     sample_world).
Proof.
  split; [reflexivity|]. split.
  - exact (proj1 (CreateSsl_rejects_verify_options
                    (call Undefined [Null; Null; Null; Null]) sample_world
                    eq_refl) eq_refl eq_refl).
  - exact (proj2 (CreateSsl_rejects_verify_options
                    (call Undefined
                       [Null; Null; Null;
                        Object KPlain
                          {["checkServerIdentity" := DataProp (Number 1)]}])
                    sample_world eq_refl)
             (Number 1) eq_refl eq_refl eq_refl eq_refl).
Defined.

Lemma CreateSsl_getter_throws_witness :
  well_shaped (call Undefined [Null; Null; Null; verify_getter 2]) = true ∧
  IsObject (info_at (call Undefined [Null; Null; Null; verify_getter 2]) 3)
    = true ∧
  Nan_Get (info_at (call Undefined [Null; Null; Null; verify_getter 2]) 3)
    "checkServerIdentity" = None ∧
  CreateSsl (call Undefined [Null; Null; Null; verify_getter 2]) sample_world =
    (Crashed, sample_world).
Proof.
  split_and!; [reflexivity..|].
  exact (CreateSsl_getter_throws
           (call Undefined [Null; Null; Null; verify_getter 2]) sample_world
           eq_refl eq_refl eq_refl).
Defined.

Lemma CreateSsl_omitted_arguments_witness :
  same_argument (info_at (call Undefined [buffer []]) 0)
    (info_at (call (handle 1%N) [buffer []; Null; Undefined; Undefined; Null]) 0) ∧
  same_argument (info_at (call Undefined [buffer []]) 1)
    (info_at (call (handle 1%N) [buffer []; Null; Undefined; Undefined; Null]) 1) ∧
  CreateSsl (call Undefined [buffer []]) sample_world =
    CreateSsl (call (handle 1%N) [buffer []; Null; Undefined; Undefined; Null])
      sample_world.
Proof.
  split; [by left|]. split; [by right|].
  apply CreateSsl_omitted_arguments;
    [by left | by right | by right | reflexivity].
Defined.

Lemma exceptions_leave_world_unchanged_witness :
  Compose (call (handle 1%N) [call_handle 3%N]) sample_world =
    (Thrown (TypeError "Cannot compose insecure credential"),
     (Compose (call (handle 1%N) [call_handle 3%N]) sample_world).2) ∧
  (Compose (call (handle 1%N) [call_handle 3%N]) sample_world).2 = sample_world.
Proof.
  split; [reflexivity|].
  exact (proj2 (proj2 (exceptions_leave_world_unchanged
                         (call (handle 1%N) [call_handle 3%N]) sample_world
                         (Compose (call (handle 1%N) [call_handle 3%N])
                            sample_world).2
                         (TypeError "Cannot compose insecure credential")))
           eq_refl).
Defined.

Lemma results_are_null_or_secure_witness :
  Compose (call (handle 2%N) [call_handle 3%N]) sample_world =
    (Done (handle 6%N),
     (Compose (call (handle 2%N) [call_handle 3%N]) sample_world).2) ∧
  ∃ self creds,
    handle 6%N = Object (KChannelCredentials self) ∅ ∧
    channel_credentials sample_world !! self = None ∧
    channel_credentials
      (Compose (call (handle 2%N) [call_handle 3%N]) sample_world).2 !! self =
      Some creds ∧
    creds ≠ NULL.
Proof.
  split; [vm_compute; reflexivity|].
  destruct (results_are_null_or_secure
              (call (handle 2%N) [call_handle 3%N]) sample_world
              (Compose (call (handle 2%N) [call_handle 3%N]) sample_world).2
              (handle 6%N) (or_intror eq_refl))
    as [[Hnull _]|Hsecure]; [discriminate Hnull|exact Hsecure].
Defined.

Lemma CreateSsl_passes_bytes_witness :
  ∃ w',
    CreateSsl (call Undefined [buffer [Byte.x72]; buffer [Byte.x6b];
                               buffer [Byte.x63]]) sample_world =
      (Done (handle 6%N), w') ∧
    ∃ vo,
      native_calls w' =
        [call_grpc_ssl_credentials_create (Some [Byte.x72])
           (Some {| private_key := Some [Byte.x6b];
                    cert_chain := Some [Byte.x63] |}) vo].
Proof.
  exists (CreateSsl (call Undefined [buffer [Byte.x72]; buffer [Byte.x6b];
                                     buffer [Byte.x63]]) sample_world).2.
  split; [vm_compute; reflexivity|].
  match goal with
  | |- ∃ vo, native_calls ?w' = _ =>
      exact (proj1 (CreateSsl_passes_bytes
                      (call Undefined [buffer [Byte.x72]; buffer [Byte.x6b];
                                       buffer [Byte.x63]])
                      sample_world w' (handle 6%N) eq_refl)
               [Byte.x72] [Byte.x6b] [Byte.x63] ∅ ∅ ∅ eq_refl eq_refl eq_refl)
  end.
Defined.

Lemma outside_the_library_witness :
  ∃ w',
    CreateInsecure (call Undefined []) sample_world = (Done (handle 6%N), w') ∧
    native_calls w' = native_calls sample_world ∧
    core w' = core sample_world.
Proof.
  eexists. split; [reflexivity|].
  destruct (proj1 (proj2 (outside_the_library sample_world))
              (call Undefined []) _ _ eq_refl) as (Hcalls & Hcore & _).
  split; [exact Hcalls|exact Hcore].
Defined.

Lemma CreateSsl_failure_keeps_callback_witness :
  @well_shaped (call Undefined [Null; Null; Null; verify_with 0]) = true ∧
  ∃ w',
    @CreateSsl refusing_core ref_host
      (call Undefined [Null; Null; Null; verify_with 0]) refused_world =
      (Done Null, w') ∧
    nan_callbacks w' !! 1%N = Some 0.
Proof.
  split; [reflexivity|].
  destruct (@CreateSsl_failure_keeps_callback refusing_core ref_host
              (call Undefined [Null; Null; Null; verify_with 0]) refused_world
              0 ∅ tt eq_refl eq_refl eq_refl eq_refl)
    as (w' & Hr & _ & Hlive & _).
  exists w'. split; [exact Hr|exact Hlive].
Defined.

Lemma registrations_independent_witness :
  8%N ≠ 4%N ∧
  nan_callbacks (set_nan_callbacks (<[8%N := 0]> {[4%N := 2]}) sample_world)
    !! 4%N = Some 2 ∧
  ∃ w',
    verify_peer_callback_destruct 8%N
      (set_nan_callbacks (<[8%N := 0]> {[4%N := 2]}) sample_world) =
      (Done tt, w') ∧
    nan_callbacks w' !! 4%N = Some 2.
Proof.
  split; [discriminate|]. split; [reflexivity|].
  eexists. split; [reflexivity|].
  exact (proj1 (registrations_independent
                  (set_nan_callbacks (<[8%N := 0]> {[4%N := 2]}) sample_world)
                  _ 8%N 4%N 2 (Done tt) ltac:(discriminate) eq_refl eq_refl)).
Defined.

Lemma registration_outlives_handles_witness :
  nan_callbacks sample_world !! 4%N = Some 2 ∧
  (CoreVerifyPeerDestruct 4%N ∉
     [Collect 2%N; CoreVerifyPeer None None 4%N;
      CallCreateInsecure (call Undefined [])]) ∧
  ∃ w',
    run [Collect 2%N; CoreVerifyPeer None None 4%N;
         CallCreateInsecure (call Undefined [])] sample_world = Some w' ∧
    nan_callbacks w' !! 4%N = Some 2.
Proof.
  assert (CoreVerifyPeerDestruct 4%N ∉
            [Collect 2%N; CoreVerifyPeer None None 4%N;
             CallCreateInsecure (call Undefined [])]) as Hnot.
  { intros Hin. apply elem_of_cons in Hin as [Heq|Hin]; [discriminate Heq|].
    apply elem_of_cons in Hin as [Heq|Hin]; [discriminate Heq|].
    apply elem_of_cons in Hin as [Heq|Hin]; [discriminate Heq|].
    by apply not_elem_of_nil in Hin. }
  split; [reflexivity|]. split; [exact Hnot|].
  eexists. split; [reflexivity|].
  exact (proj1 (registration_outlives_handles
                  [Collect 2%N; CoreVerifyPeer None None 4%N;
                   CallCreateInsecure (call Undefined [])]
                  sample_world _ 4%N 2 eq_refl Hnot eq_refl)).
Defined.

Lemma wrapped_credentials_stable_witness :
  channel_credentials sample_world !! 2%N = Some 40%N ∧
  (Collect 2%N ∉
     [Collect 1%N; CallCompose (call (handle 2%N) [call_handle 3%N])]) ∧
  ∃ w',
    run [Collect 1%N; CallCompose (call (handle 2%N) [call_handle 3%N])]
      sample_world = Some w' ∧
    GetWrappedCredentials 2%N w' = (Done 40%N, w').
Proof.
  assert (Collect 2%N ∉
            [Collect 1%N; CallCompose (call (handle 2%N) [call_handle 3%N])])
    as Hnot.
  { intros Hin. apply elem_of_cons in Hin as [Heq|Hin]; [discriminate Heq|].
    apply elem_of_cons in Hin as [Heq|Hin]; [discriminate Heq|].
    by apply not_elem_of_nil in Hin. }
  split; [reflexivity|]. split; [exact Hnot|].
  eexists. split; [reflexivity|].
  exact (wrapped_credentials_stable
           [Collect 1%N; CallCompose (call (handle 2%N) [call_handle 3%N])]
           sample_world _ 2%N 40%N eq_refl Hnot eq_refl).
Defined.

Lemma Compose_result_composes_witness :
  Compose (call (handle 2%N) [call_handle 3%N]) sample_world =
    (Done (handle 6%N),
     (Compose (call (handle 2%N) [call_handle 3%N]) sample_world).2) ∧
  handle 6%N ≠ Null ∧
  ∃ channel_creds creds s,
    grpc_composite_channel_credentials_create channel_creds 50%N
      (core sample_world) = (creds, s) ∧
    creds ≠ NULL ∧
    Compose_accepts (call (handle 6%N) [call_handle 3%N])
      (Compose (call (handle 2%N) [call_handle 3%N]) sample_world).2
      creds 50%N.
Proof.
  split; [vm_compute; reflexivity|]. split; [discriminate|].
  destruct (Compose_result_composes
              (call (handle 2%N) [call_handle 3%N]) sample_world
              (Compose (call (handle 2%N) [call_handle 3%N]) sample_world).2
              (handle 6%N) eq_refl ltac:(discriminate))
    as (c1 & c2 & creds & s & Hacc & Hcore & Hne & _ & Hnew).
  destruct Hacc as (_ & _ & (other & props & Harg & Hother)).
  injection Harg as <- <-. vm_compute in Hother. injection Hother as <-.
  exists c1, creds, s. split; [exact Hcore|]. split; [exact Hne|exact Hnew].
Defined.

Lemma releases_count_collections_witness :
  ∃ w',
    run [Collect 1%N; CallCreateInsecure (call Undefined []); Collect 2%N]
      sample_world = Some w' ∧
    length (releases (native_calls w')) = 2.
Proof.
  eexists. split; [reflexivity|].
  exact (releases_count_collections
           [Collect 1%N; CallCreateInsecure (call Undefined []); Collect 2%N]
           sample_world _ eq_refl).
Defined.

Lemma Compose_then_Collect_witness :
  ∃ w1 w2,
    Compose (call (handle 2%N) [call_handle 3%N]) sample_world =
      (Done (handle 6%N), w1) ∧
    exec (Collect 6%N) w1 = Some w2 ∧
    channel_credentials w2 = channel_credentials sample_world.
Proof.
  eexists _, _. split; [reflexivity|]. split; [reflexivity|].
  exact (proj1 (Compose_then_Collect
                  (call (handle 2%N) [call_handle 3%N]) sample_world _ _ 6%N ∅
                  eq_refl eq_refl)).
Defined.
